(** * The [prisma version] command (packages/cli/src/Version.ts)

    A shallow embedding of the [Version] command class and of the
    [slugify] helper, and the properties of the command's specification
    proved over it.

    Conventions of the embedding.
    - A JavaScript string is a [string]; the model covers strings of ASCII
      characters ([isAscii]), which is what every label built by the
      command is.  On those, [toLowerCase] moves the letters [A]-[Z] only,
      the class [\s] of a regular expression is tab, line feed, vertical
      tab, form feed, carriage return and space, and [length] counts
      characters.  A property of [toLowerCase], [slugify], [padEnd] or
      [maxPad] at a string that the command does not build itself is
      stated under the hypothesis that the string is ASCII.
    - An [async] function that may reject, or a function that may throw,
      returns a [Result]; [await] is the bind of that monad.
    - [process.env] is a finite map from names to values, passed
      explicitly: [loadEnvFile] is the one call that updates it.
    - Everything the command imports from other packages (the argument
      parser, the engine probe, the schema reader, [path.relative], the
      terminal colours ...) is a field of the record [World]. *)

From Stdlib Require Import String Ascii List NArith Bool Lia.
From stdpp Require Import base option list strings gmap.
Import ListNotations.

Local Open Scope string_scope.
Local Open Scope list_scope.

(** ** Results of fallible calls *)

Inductive Result (A : Type) : Type :=
| Ok (a : A)
| Throw (e : string).
Arguments Ok {A} a.
Arguments Throw {A} e.

#[global] Instance Result_ret : MRet Result := fun A a => Ok a.
#[global] Instance Result_bind : MBind Result := fun A B f r =>
  match r with
  | Ok a => f a
  | Throw e => Throw e
  end.

(** [try { body } catch (e) { handler e }]. *)
Definition try_catch {A} (body : Result A) (handler : string -> Result A) : Result A :=
  match body with
  | Ok a => Ok a
  | Throw e => handler e
  end.

(** ** JavaScript strings *)

(** Truthiness of a string: every string but the empty one. *)
Definition truthy (s : string) : bool := negb (String.eqb s "").

(** Truthiness of a [string | undefined] (or [string | null]). *)
Definition truthy_opt (o : option string) : bool :=
  match o with
  | Some s => truthy s
  | None => false
  end.

(** The strings of the model's domain: every character is below 128, so
    that it is one UTF-16 unit of the JavaScript string. *)
Definition isAsciiChar (c : ascii) : bool := (nat_of_ascii c <? 128)%nat.

Fixpoint isAscii (s : string) : bool :=
  match s with
  | EmptyString => true
  | String c r => isAsciiChar c && isAscii r
  end.

Definition isUpper (c : ascii) : bool :=
  ((65 <=? nat_of_ascii c) && (nat_of_ascii c <=? 90))%nat.

Definition lowerChar (c : ascii) : ascii :=
  if isUpper c then ascii_of_nat (nat_of_ascii c + 32) else c.

(** [String.prototype.toLowerCase], on ASCII strings: among the
    characters below 128 it moves the letters [A]-[Z] and no other. *)
Fixpoint toLowerCase (s : string) : string :=
  match s with
  | EmptyString => EmptyString
  | String c r => String (lowerChar c) (toLowerCase r)
  end.

(** The character class [\s], on ASCII strings: its members below 128. *)
Definition isWhiteSpace (c : ascii) : bool :=
  let n := nat_of_ascii c in
  ((9 <=? n) && (n <=? 13) || (n =? 32))%nat.

(** [s.replace(/\s+/g, '-')]: the scan goes left to right; [\s+] is
    greedy, so a match that starts at a white-space character takes the
    whole run; [inRun] says that the scan is inside a match already
    replaced. *)
Fixpoint replaceWhiteSpace (inRun : bool) (s : string) : string :=
  match s with
  | EmptyString => EmptyString
  | String c r =>
      if isWhiteSpace c then
        if inRun then replaceWhiteSpace true r
        else String "-" (replaceWhiteSpace true r)
      else String c (replaceWhiteSpace false r)
  end.

(** [function slugify(str)], on ASCII strings. *)
Definition slugify (str : string) : string :=
  replaceWhiteSpace false (toLowerCase str).

Fixpoint spaces (n : nat) : string :=
  match n with
  | O => EmptyString
  | S n' => String " " (spaces n')
  end.

(** [s.padEnd(targetLength)], filling with spaces, on ASCII strings
    (whose [length] is their number of characters); a string that is long
    enough comes back as it is. *)
Definition padEnd (s : string) (targetLength : nat) : string :=
  s +:+ spaces (targetLength - String.length s).

(** [s.split(sep)] for a one-character separator. *)
Fixpoint split (sep : ascii) (s : string) : list string :=
  match s with
  | EmptyString => [EmptyString]
  | String c r =>
      if Ascii.eqb c sep then EmptyString :: split sep r
      else match split sep r with
           | h :: t => String c h :: t
           | [] => [String c EmptyString]
           end
  end.

(** [a.pop()] read as its result: the last element, [undefined] on an
    empty array. *)
Definition pop (a : list string) : option string := last a.

(** [a.join(sep)]. *)
Definition join (sep : string) (a : list string) : string := String.concat sep a.

(** ** The packages the command imports *)

(** Modelled from the spec: the enumeration [EngineType] of the SDK is not
    part of the sources at hand; these are the engine kinds the command
    names, the query engine in its two forms (binary and library). *)
Inductive EngineType : Type :=
| queryEngine
| libqueryEngine
| migrationEngine
| introspectionEngine
| prismaFmt.

#[global] Instance EngineType_eq_dec : EqDecision EngineType.
Proof. solve_decision. Defined.

Record EngineInfo : Type := {
  path : string;
  version : string;
  fromEnvVar : option string
}.

(** What [arg] hands back for the option table of [parse]; a [Boolean]
    option is [true] when present and absent otherwise. *)
Record Args : Type := {
  arg_help : bool;
  arg_version : bool;
  arg_json : bool;
  arg_telemetry_information : option string;
  arg_rest : list string
}.

Inductive ArgResult : Type :=
| ArgError (message : string)
| ArgOk (args : Args).

Record GeneratorConfig : Type := {
  generatorName : string;
  previewFeatures : list string
}.

Record ConfigMetaFormat : Type := {
  generators : list GeneratorConfig
}.

(** The imports of the command, as they answer in the run at hand: what
    an import reads of its own accord (the probe of an engine starts a
    process in the ambient environment) is part of its answer, and no
    property below says that an answer is independent of the
    environment. *)
Record World : Type := {
  (* @prisma/sdk *)
  arg : list string -> ArgResult;
  engineEnvVarMap : EngineType -> string;
  format : string -> string;
  getConfig : string -> Result ConfigMetaFormat;
  getSchema : Result string;
  getSchemaPath : Result (option string);
  getVersion : string -> EngineType -> Result string;
  loadEnvFile : gmap string string -> Result (gmap string string);
  resolveEnginePath : EngineType -> Result string;
  (* @prisma/engines, @prisma/get-platform, ./utils/getClientVersion *)
  getCliQueryEngineType : EngineType;
  getPlatform : Result string;
  getInstalledPrismaClientVersion : Result (option string);
  (* chalk *)
  chalk_bold : string -> string;
  chalk_dim : string -> string;
  chalk_bold_red : string -> string;
  (* fs, path, process *)
  files : gset string;
  path_relative : string -> string -> string;
  cwd : string
}.

(** [fs.existsSync]: whether the path names an entry of the disk; the
    empty path names none. *)
Definition existsSync (w : World) (p : string) : bool :=
  truthy p && bool_decide (p ∈ files w).

(** The fields of [../package.json] the command reads. *)
Record PackageJson : Type := {
  pkg_name : string;
  pkg_version : string;
  pkg_devDependencies_studio_server : string;
  pkg_dependencies_engines : string
}.

Definition packageJson : PackageJson := {|
  pkg_name := "prisma";
  pkg_version := "0.0.0";
  pkg_devDependencies_studio_server := "0.460.0";
  pkg_dependencies_engines := "3.15.0-11.1c05d2fd02981d04d5367319e82f44e1c44ec0b7"
|}.

(** ** JavaScript objects with string values, and [JSON.stringify] *)

Definition LF : ascii := ascii_of_nat 10.
Definition dquote : ascii := ascii_of_nat 34.
Definition bslash : ascii := ascii_of_nat 92.
Definition nl : string := String LF EmptyString.

(** The own properties of an object, in the order of their creation. *)
Abbreviation JsObject := (list (string * string)).

(** [o[k] = v] on own properties: the value of a property that exists is
    replaced where it stands, a new property goes last. *)
Fixpoint defineProperty (k v : string) (o : JsObject) : JsObject :=
  match o with
  | [] => [(k, v)]
  | (k', v') :: t =>
      if String.eqb k' k then (k', v) :: t
      else (k', v') :: defineProperty k v t
  end.

(** [acc[k] = v] for an object literal [acc] and a string [v]: the name
    [__proto__] is the accessor inherited from [Object.prototype], whose
    setter ignores a value that is neither an object nor [null], so that
    assignment creates no property. *)
Definition setProperty (acc : JsObject) (k v : string) : JsObject :=
  if String.eqb k "__proto__" then acc else defineProperty k v acc.

Definition getOwnProperty (o : JsObject) (k : string) : option string :=
  snd <$> find (fun kv => String.eqb (fst kv) k) o.

Definition isDigit (c : ascii) : bool :=
  ((48 <=? nat_of_ascii c) && (nat_of_ascii c <=? 57))%nat.

Fixpoint allDigits (s : string) : bool :=
  match s with
  | EmptyString => true
  | String c r => isDigit c && allDigits r
  end.

Fixpoint decimalValue (acc : N) (s : string) : N :=
  match s with
  | EmptyString => acc
  | String c r => decimalValue (10 * acc + (N_of_ascii c - 48))%N r
  end.

(** A property name is an array index when it is the canonical decimal
    form of an integer from 0 to 2^32 - 2. *)
Definition arrayIndex (k : string) : option N :=
  match k with
  | EmptyString => None
  | String c r =>
      if allDigits k && (negb (Ascii.eqb c "0") || String.eqb r "") then
        let n := decimalValue 0 k in
        if (n <? 4294967295)%N then Some n else None
      else None
  end.

Fixpoint insertByIndex (e : N * (string * string)) (l : list (N * (string * string)))
  : list (N * (string * string)) :=
  match l with
  | [] => [e]
  | h :: t => if (fst e <=? fst h)%N then e :: l else h :: insertByIndex e t
  end.

Definition sortByIndex (l : list (N * (string * string))) : list (N * (string * string)) :=
  foldr insertByIndex [] l.

(** The own properties in the order in which they are enumerated: array
    indices ascending, then the other names in the order of creation. *)
Definition ownEntries (o : JsObject) : list (string * string) :=
  map snd (sortByIndex (omap (fun kv => (fun n => (n, kv)) <$> arrayIndex (fst kv)) o))
  ++ filter (fun kv => arrayIndex (fst kv) = None) o.

Definition hexDigit (n : nat) : ascii :=
  if (n <? 10)%nat then ascii_of_nat (48 + n) else ascii_of_nat (87 + n).

(** One character of a string literal of JSON. *)
Definition quoteChar (c : ascii) : string :=
  let n := nat_of_ascii c in
  if (n =? 34)%nat then String bslash (String dquote EmptyString)
  else if (n =? 92)%nat then String bslash (String bslash EmptyString)
  else if (n =? 8)%nat then String bslash "b"
  else if (n =? 9)%nat then String bslash "t"
  else if (n =? 10)%nat then String bslash "n"
  else if (n =? 12)%nat then String bslash "f"
  else if (n =? 13)%nat then String bslash "r"
  else if (n <? 32)%nat then
    String bslash ("u00" +:+ String (hexDigit (n / 16)) (String (hexDigit (n mod 16)) EmptyString))
  else String c EmptyString.

Fixpoint quoteChars (s : string) : string :=
  match s with
  | EmptyString => EmptyString
  | String c r => quoteChar c +:+ quoteChars r
  end.

Definition quoteJSONString (s : string) : string :=
  String dquote (quoteChars s +:+ String dquote EmptyString).

(** [JSON.stringify(value, null, space)] for an object whose values are
    strings and a number [space]. *)
Definition JSON_stringify (value : JsObject) (space : nat) : string :=
  let gap := spaces (Nat.min 10 space) in
  let separator := if truthy gap then ": " else ":" in
  let partial :=
    map (fun kv => quoteJSONString (fst kv) +:+ separator +:+ quoteJSONString (snd kv))
        (ownEntries value) in
  match partial with
  | [] => "{}"
  | _ :: _ =>
      if truthy gap then
        "{" +:+ nl +:+ gap +:+ join ("," +:+ nl +:+ gap) partial +:+ nl +:+ "}"
      else "{" +:+ join "," partial +:+ "}"
  end.

(** ** class Version *)

(** A row of the report: [[label, value]]. *)
Definition Row : Type := (string * string)%type.

(** What [parse] resolves to: a string, or a [HelpError] with its message. *)
Inductive Output : Type :=
| Str (s : string)
| HelpError (message : string).

(** [private static help]. *)
Definition Version_help (w : World) : string :=
  format w (join nl [
    "";
    "  Print current version of Prisma components";
    "";
    "  " +:+ chalk_bold w "Usage";
    "";
    "    " +:+ chalk_dim w "$" +:+ " prisma -v [options]";
    "    " +:+ chalk_dim w "$" +:+ " prisma version [options]";
    "";
    "  " +:+ chalk_bold w "Options";
    "";
    "    -h, --help     Display this help message";
    "        --json     Output JSON";
    ""]).

(** [public help(error?)]. *)
Definition help (w : World) (error : option string) : Output :=
  if truthy_opt error then
    HelpError (nl +:+ chalk_bold_red w "!" +:+ " " +:+ default "" error +:+ nl +:+ Version_help w)
  else Str (Version_help w).

(** [(g) => g.previewFeatures.length > 0]. *)
Definition hasPreviewFeatures (g : GeneratorConfig) : bool :=
  (0 <? length (previewFeatures g))%nat.

(** [private async getFeatureFlags(schemaPath)].  The body of [try]
    either returns a list ([Some]) or runs to its end ([None]); the empty
    [catch] block lets control go on after the statement. *)
Definition getFeatureFlags (w : World) (schemaPath : option string) : Result (list string) :=
  if negb (truthy_opt schemaPath) then Ok []
  else
    returned ← try_catch
      (datamodel ← getSchema w;
       config ← getConfig w datamodel;
       let generator :=
         find hasPreviewFeatures (generators config) in
       match generator with
       | Some g => Ok (Some (previewFeatures g))
       | None => Ok None
       end)
      (fun e => Ok None);
    match returned with
    | Some flags => Ok flags
    | None => Ok []
    end.

(** [private constructEngineInfoString({ path, version, fromEnvVar })]. *)
Definition constructEngineInfoString (w : World) (info : EngineInfo) : string :=
  let resolved :=
    if truthy_opt (fromEnvVar info) then ", resolved by " +:+ default "" (fromEnvVar info)
    else "" in
  version info +:+ " (at " +:+ path_relative w (cwd w) (path info) +:+ resolved +:+ ")".

(** [private async getEngineInfo(engineType)], reading [process.env]. *)
Definition getEngineInfo (w : World) (env : gmap string string) (engineType : EngineType)
  : Result EngineInfo :=
  let envVar := engineEnvVarMap w engineType in
  let pathFromEnv := env !! envVar in
  if truthy_opt pathFromEnv && existsSync w (default "" pathFromEnv) then
    version ← getVersion w (default "" pathFromEnv) engineType;
    Ok {| version := version; path := default "" pathFromEnv; fromEnvVar := Some envVar |}
  else
    enginePath ← resolveEnginePath w engineType;
    version ← getVersion w enginePath engineType;
    Ok {| version := version; path := enginePath; fromEnvVar := None |}.

(** The object that [printTable] builds with [rows.reduce(..., {})]. *)
Definition rowsObject (rows : list Row) : JsObject :=
  fold_left (fun acc row => setProperty acc (slugify (fst row)) (snd row)) rows [].

(** The width that [printTable] computes with [rows.reduce(..., 0)], for
    ASCII labels (whose [length] is their number of characters). *)
Definition maxPad (rows : list Row) : nat :=
  fold_left (fun acc curr => Nat.max acc (String.length (fst curr))) rows 0.

(** [private printTable(rows, json = false)]. *)
Definition printTable (rows : list Row) (json : bool) : string :=
  if json then
    let result := rowsObject rows in
    JSON_stringify result 2
  else
    let maxPad := maxPad rows in
    join nl (map (fun row => padEnd (fst row) maxPad +:+ " : " +:+ snd row) rows).

(** The label of the query engine's row. *)
Definition queryEngineLabel (cliQueryEngineType : EngineType) : string :=
  "Query Engine" +:+ (if decide (cliQueryEngineType = libqueryEngine) then " (Node-API)" else " (Binary)").

(** The part of [parse] that gathers the rows, from
    [getInstalledPrismaClientVersion] to the optional last row.  [split]
    gives at least one piece, so that [pop] always has a result and the
    [default] of the last fixed row is never taken. *)
Definition versionInfoRows (w : World) (env : gmap string string) : Result (list Row) :=
  prismaClientVersion ← getInstalledPrismaClientVersion w;
  platform ← getPlatform w;
  let cliQueryEngineType := getCliQueryEngineType w in
  queryEngine ← getEngineInfo w env cliQueryEngineType;
  migrationEngine ← getEngineInfo w env migrationEngine;
  introspectionEngine ← getEngineInfo w env introspectionEngine;
  fmtEngine ← getEngineInfo w env prismaFmt;
  let versionInfoRows : list Row := [
    (pkg_name packageJson, pkg_version packageJson);
    ("@prisma/client", default "Not found" prismaClientVersion);
    ("Current platform", platform);
    (queryEngineLabel cliQueryEngineType, constructEngineInfoString w queryEngine);
    ("Migration Engine", constructEngineInfoString w migrationEngine);
    ("Introspection Engine", constructEngineInfoString w introspectionEngine);
    ("Format Engine", constructEngineInfoString w fmtEngine);
    ("Studio", pkg_devDependencies_studio_server packageJson);
    ("Default Engines Hash",
      default "undefined" (pop (split "." (pkg_dependencies_engines packageJson))))
  ] in
  schemaPath ← getSchemaPath w;
  featureFlags ← getFeatureFlags w schemaPath;
  if (0 <? length featureFlags)%nat then
    Ok (versionInfoRows ++ [("Preview Features", join ", " featureFlags)])
  else Ok versionInfoRows.

(** [async parse(argv)], started with [process.env] equal to [env]. *)
Definition parse (w : World) (env : gmap string string) (argv : list string) : Result Output :=
  match arg w argv with
  | ArgError message => Ok (help w (Some message))
  | ArgOk args =>
      if arg_help args then Ok (help w None)
      else
        env' ← loadEnvFile w env;
        rows ← versionInfoRows w env';
        Ok (Str (printTable rows (arg_json args)))
  end.


(** ** A sample installation, for the examples *)

(** Modelled from the spec: the argument parser [arg] of the SDK is not
    part of the sources at hand; this one reads the flags the command
    declares ([--help]/[-h], [--version]/[-v], [--json] and
    [--telemetry-information] with its value), stops at the first
    positional argument and refuses any other option. *)
Fixpoint sampleArg (acc : Args) (argv : list string) : ArgResult :=
  match argv with
  | [] => ArgOk acc
  | a :: rest =>
      if String.eqb a "--help" || String.eqb a "-h" then
        sampleArg {| arg_help := true; arg_version := arg_version acc;
                     arg_json := arg_json acc;
                     arg_telemetry_information := arg_telemetry_information acc;
                     arg_rest := arg_rest acc |} rest
      else if String.eqb a "--version" || String.eqb a "-v" then
        sampleArg {| arg_help := arg_help acc; arg_version := true;
                     arg_json := arg_json acc;
                     arg_telemetry_information := arg_telemetry_information acc;
                     arg_rest := arg_rest acc |} rest
      else if String.eqb a "--json" then
        sampleArg {| arg_help := arg_help acc; arg_version := arg_version acc;
                     arg_json := true;
                     arg_telemetry_information := arg_telemetry_information acc;
                     arg_rest := arg_rest acc |} rest
      else if String.eqb a "--telemetry-information" then
        match rest with
        | v :: rest' =>
            sampleArg {| arg_help := arg_help acc; arg_version := arg_version acc;
                         arg_json := arg_json acc;
                         arg_telemetry_information := Some v;
                         arg_rest := arg_rest acc |} rest'
        | [] => ArgError "option requires argument: --telemetry-information"
        end
      else if String.prefix "-" a then ArgError ("unknown or unexpected option: " +:+ a)
      else ArgOk {| arg_help := arg_help acc; arg_version := arg_version acc;
                    arg_json := arg_json acc;
                    arg_telemetry_information := arg_telemetry_information acc;
                    arg_rest := argv |}
  end.

Definition noArgs : Args := {|
  arg_help := false; arg_version := false; arg_json := false;
  arg_telemetry_information := None; arg_rest := []
|}.

Definition sampleEnvVarMap (engineType : EngineType) : string :=
  match engineType with
  | queryEngine => "PRISMA_QUERY_ENGINE_BINARY"
  | libqueryEngine => "PRISMA_QUERY_ENGINE_LIBRARY"
  | migrationEngine => "PRISMA_MIGRATION_ENGINE_BINARY"
  | introspectionEngine => "PRISMA_INTROSPECTION_ENGINE_BINARY"
  | prismaFmt => "PRISMA_FMT_BINARY"
  end.

Definition sampleEngineFile (engineType : EngineType) : string :=
  match engineType with
  | queryEngine => "/app/engines/query-engine"
  | libqueryEngine => "/app/engines/libquery_engine.so.node"
  | migrationEngine => "/app/engines/migration-engine"
  | introspectionEngine => "/app/engines/introspection-engine"
  | prismaFmt => "/app/engines/prisma-fmt"
  end.

(** The segments of an absolute path. *)
Definition pathParts (p : string) : list string :=
  List.filter (fun piece => negb (String.eqb piece "")) (split "/" p).

(** What is left of two lists of segments after their common start. *)
Fixpoint stripCommon (a b : list string) : list string * list string :=
  match a, b with
  | x :: a', y :: b' => if String.eqb x y then stripCommon a' b' else (a, b)
  | _, _ => (a, b)
  end.

(** [path.relative(from, to)] for absolute paths without [.] and [..]
    segments: one [..] for every segment of [from] after the common
    start, then the segments of [to] after it. *)
Definition sampleRelative (from to : string) : string :=
  let rest := stripCommon (pathParts from) (pathParts to) in
  join "/" (map (fun _ => "..") (fst rest) ++ snd rest).

Definition sampleFiles : gset string :=
  {[ "/app/engines/query-engine"; "/app/engines/libquery_engine.so.node";
     "/app/engines/migration-engine"; "/app/engines/introspection-engine";
     "/app/engines/prisma-fmt"; "/opt/engines/migration-engine";
     "/opt/notes.txt" ]}.

(** A working installation: every engine is where the default resolution
    says; [/opt/engines/migration-engine] is one more engine, and
    [/opt/notes.txt] a file that is no engine, so that its probe fails. *)
Definition sampleWorld (clientVersion : option string) (cliType : EngineType)
    (schema : Result ConfigMetaFormat) : World := {|
  arg := sampleArg noArgs;
  engineEnvVarMap := sampleEnvVarMap;
  format := fun s => s;
  getConfig := fun _ => schema;
  getSchema := Ok "generator client { previewFeatures = [a, b] }";
  getSchemaPath := Ok (Some "/app/prisma/schema.prisma");
  getVersion := fun p _ =>
    if bool_decide (p ∈ sampleFiles) && negb (String.eqb p "/opt/notes.txt")
    then Ok "3.15.0" else Throw "spawn failed";
  loadEnvFile := fun env => Ok env;
  resolveEnginePath := fun t => Ok (sampleEngineFile t);
  getCliQueryEngineType := cliType;
  getPlatform := Ok "debian-openssl-1.1.x";
  getInstalledPrismaClientVersion := Ok clientVersion;
  chalk_bold := fun s => s;
  chalk_dim := fun s => s;
  chalk_bold_red := fun s => s;
  files := sampleFiles;
  path_relative := sampleRelative;
  cwd := "/app"
|}.

Definition sampleConfig (flags : list string) : Result ConfigMetaFormat :=
  Ok {| generators := [ {| generatorName := "client"; previewFeatures := flags |} ] |}.

(** The sample installation with a default resolution of its own. *)
Definition withResolveEnginePath (w : World) (resolve : EngineType -> Result string) : World := {|
  arg := arg w;
  engineEnvVarMap := engineEnvVarMap w;
  format := format w;
  getConfig := getConfig w;
  getSchema := getSchema w;
  getSchemaPath := getSchemaPath w;
  getVersion := getVersion w;
  loadEnvFile := loadEnvFile w;
  resolveEnginePath := resolve;
  getCliQueryEngineType := getCliQueryEngineType w;
  getPlatform := getPlatform w;
  getInstalledPrismaClientVersion := getInstalledPrismaClientVersion w;
  chalk_bold := chalk_bold w;
  chalk_dim := chalk_dim w;
  chalk_bold_red := chalk_bold_red w;
  files := files w;
  path_relative := path_relative w;
  cwd := cwd w
|}.

(** ** The outcomes of feature-flag extraction that find no flag *)

Inductive NoFlagsFound (w : World) (schemaPath : option string) : Prop :=
| NoSchemaPath :
    truthy_opt schemaPath = false -> NoFlagsFound w schemaPath
| SchemaUnreadable e :
    getSchema w = Throw e -> NoFlagsFound w schemaPath
| ConfigInvalid datamodel e :
    getSchema w = Ok datamodel -> getConfig w datamodel = Throw e ->
    NoFlagsFound w schemaPath
| NoGeneratorWithFlags datamodel config :
    getSchema w = Ok datamodel -> getConfig w datamodel = Ok config ->
    find hasPreviewFeatures (generators config) = None ->
    NoFlagsFound w schemaPath.

(** ** The shape of a report *)

(** [<version> (at <relative path>)], with [, resolved by <name>] before
    the closing bracket when a variable is named. *)
Definition engineRowForm (ver rel : string) (envVar : option string) : string :=
  ver +:+ " (at " +:+ rel +:+
  match envVar with
  | Some name => ", resolved by " +:+ name
  | None => ""
  end +:+ ")".

(** The labels of the rows that every report has, in their order. *)
Definition fixedLabels (queryLabel : string) : list string :=
  [ "prisma"; "@prisma/client"; "Current platform"; queryLabel;
    "Migration Engine"; "Introspection Engine"; "Format Engine";
    "Studio"; "Default Engines Hash" ].

(** [parse], started with [process.env] equal to [env], produces on [argv]
    the report made of [rows]: the arguments are accepted without the
    help flag, and the environment file and every piece of the report
    are obtained. *)
Definition producesReport (w : World) (env : gmap string string) (argv : list string)
    (rows : list Row) : Prop :=
  exists args env',
    arg w argv = ArgOk args /\ arg_help args = false /\
    loadEnvFile w env = Ok env' /\ versionInfoRows w env' = Ok rows.

(** The value of an engine's row, for the [EngineInfo] of that engine. *)
Definition engineRowValue (w : World) (info : EngineInfo) : string :=
  engineRowForm (version info) (path_relative w (cwd w) (path info))
    (if truthy_opt (fromEnvVar info) then fromEnvVar info else None).

(** The rows that the sample installation reports. *)
Definition sampleRows (clientVersion : option string) (cliType : EngineType)
    (flags : list string) : list Row :=
  match versionInfoRows (sampleWorld clientVersion cliType (sampleConfig flags)) ∅ with
  | Ok rows => rows
  | Throw _ => []
  end.

(** ** Words of the slugification rule *)

Fixpoint noWhiteSpace (s : string) : bool :=
  match s with
  | EmptyString => true
  | String c r => negb (isWhiteSpace c) && noWhiteSpace r
  end.

(** A run of white space. *)
Fixpoint allWhiteSpace (s : string) : bool :=
  match s with
  | EmptyString => true
  | String c r => isWhiteSpace c && allWhiteSpace r
  end.

Definition startsWithWhiteSpace (s : string) : bool :=
  match s with
  | EmptyString => false
  | String c _ => isWhiteSpace c
  end.

Fixpoint endsWithWhiteSpace (s : string) : bool :=
  match s with
  | EmptyString => false
  | String c r =>
      match r with
      | EmptyString => isWhiteSpace c
      | String _ _ => endsWithWhiteSpace r
      end
  end.

Fixpoint noUpper (s : string) : bool :=
  match s with
  | EmptyString => true
  | String c r => negb (isUpper c) && noUpper r
  end.

(** Whether the character [c] occurs in [s]. *)
Fixpoint occurs (c : ascii) (s : string) : bool :=
  match s with
  | EmptyString => false
  | String c' r => Ascii.eqb c' c || occurs c r
  end.

(** Whether a scan that has read [a] stands inside a run of white space,
    when it stood inside one ([inRun]) or not before [a]. *)
Definition inRunAfter (inRun : bool) (a : string) : bool :=
  match a with
  | EmptyString => inRun
  | String _ _ => endsWithWhiteSpace a
  end.

(** The line of a property in output indented by two spaces: the key and
    the value as string literals, a colon and a space between them. *)
Definition entryLine (kv : string * string) : string :=
  "  " +:+ quoteJSONString (fst kv) +:+ ": " +:+ quoteJSONString (snd kv).

(** *** The rule in the words of the specification

    The label is cut into its maximal runs, each a run of white space
    ([true]) or a run of other characters ([false]); the slug is the
    lowercased label with every run of white space replaced by one
    hyphen. *)

(** The runs of [String c s], from those of [s]. *)
Definition consRun (c : ascii) (runs : list (bool * string)) : list (bool * string) :=
  match runs with
  | (ws, run) :: rest =>
      if Bool.eqb ws (isWhiteSpace c) then (ws, String c run) :: rest
      else (isWhiteSpace c, String c EmptyString) :: runs
  | [] => [(isWhiteSpace c, String c EmptyString)]
  end.

Fixpoint maximalRuns (s : string) : list (bool * string) :=
  match s with
  | EmptyString => []
  | String c r => consRun c (maximalRuns r)
  end.

Fixpoint concatRuns (runs : list (bool * string)) : string :=
  match runs with
  | [] => EmptyString
  | run :: rest => snd run +:+ concatRuns rest
  end.

(** A run holds at least one character, all of its class. *)
Definition wellFormedRun (run : bool * string) : bool :=
  negb (String.eqb (snd run) "") &&
  (if fst run then allWhiteSpace (snd run) else noWhiteSpace (snd run)).

(** Runs are maximal when no two neighbours are of the same class. *)
Fixpoint alternating (runs : list (bool * string)) : bool :=
  match runs with
  | [] => true
  | run :: rest =>
      match rest with
      | [] => true
      | next :: _ => negb (Bool.eqb (fst run) (fst next)) && alternating rest
      end
  end.

Fixpoint hyphenateRuns (runs : list (bool * string)) : string :=
  match runs with
  | [] => EmptyString
  | run :: rest => (if fst run then "-" else snd run) +:+ hyphenateRuns rest
  end.

Definition slugifySpec (label : string) : string :=
  hyphenateRuns (maximalRuns (toLowerCase label)).

(** The runs that are left to a scan that stands inside a run of white
    space. *)
Definition afterRun (runs : list (bool * string)) : list (bool * string) :=
  match runs with
  | (true, _) :: rest => rest
  | _ => runs
  end.

(** ** Failures of a run *)

(** The error of a call that failed. *)
Definition failure {A} (r : Result A) : option string :=
  match r with
  | Ok _ => None
  | Throw e => Some e
  end.

(** The error of the first call of a sequence that failed. *)
Fixpoint firstFailure (steps : list (option string)) : option string :=
  match steps with
  | [] => None
  | Some e :: _ => Some e
  | None :: rest => firstFailure rest
  end.

(** The calls that [parse] awaits for a report, in the order of the
    source, each reduced to its failure. *)
Definition reportSteps (w : World) (env : gmap string string) : list (option string) :=
  [ failure (getInstalledPrismaClientVersion w);
    failure (getPlatform w);
    failure (getEngineInfo w env (getCliQueryEngineType w));
    failure (getEngineInfo w env migrationEngine);
    failure (getEngineInfo w env introspectionEngine);
    failure (getEngineInfo w env prismaFmt);
    failure (getSchemaPath w) ].


(** The property that a row contributes to the object. *)
Definition rowEntry (row : Row) : string * string := (slugify (fst row), snd row).

(** The keys of the rows that every report has, in their order. *)
Definition fixedKeys (queryKey : string) : list string :=
  [ "prisma"; "@prisma/client"; "current-platform"; queryKey;
    "migration-engine"; "introspection-engine"; "format-engine";
    "studio"; "default-engines-hash" ].

(** The number of occurrences of the character [c] in [s]. *)
Fixpoint countChar (c : ascii) (s : string) : nat :=
  match s with
  | EmptyString => 0
  | String c' r => (if Ascii.eqb c' c then 1 else 0) + countChar c r
  end.

(** * Properties *)

(** ** The error monad *)

Lemma bind_Ok_inv {A B} (c : Result A) (f : A -> Result B) (b : B) :
  (c ≫= f) = Ok b -> exists a, c = Ok a /\ f a = Ok b.
Proof.
  destruct c as [a|e]; intros H.
  - exists a. split; [reflexivity | exact H].
  - discriminate H.
Qed.

(** Splits a successful sequence of [await]s into its steps. *)
Ltac bind_inv H :=
  repeat (let a := fresh "a" in
          let Ha := fresh "Hstep" in
          apply bind_Ok_inv in H; destruct H as (a & Ha & H)).

(** ** Strings *)

Lemma existsSync_truthy (w : World) (p : string) :
  existsSync w p = true -> truthy p = true.
Proof. unfold existsSync. intros H. apply andb_true_iff in H. tauto. Qed.

(** ** getEngineInfo *)

Lemma getEngineInfo_override (w : World) (env : gmap string string)
    (engineType : EngineType) (v : string) :
  env !! engineEnvVarMap w engineType = Some v ->
  existsSync w v = true ->
  getEngineInfo w env engineType =
    (version ← getVersion w v engineType;
     Ok {| version := version; path := v;
           fromEnvVar := Some (engineEnvVarMap w engineType) |}).
Proof.
  intros Henv Hex. unfold getEngineInfo. rewrite Henv. simpl.
  rewrite (existsSync_truthy _ _ Hex), Hex. reflexivity.
Qed.

Lemma getEngineInfo_default (w : World) (env : gmap string string)
    (engineType : EngineType) :
  (env !! engineEnvVarMap w engineType = None \/
   exists v, env !! engineEnvVarMap w engineType = Some v /\ existsSync w v = false) ->
  getEngineInfo w env engineType =
    (enginePath ← resolveEnginePath w engineType;
     version ← getVersion w enginePath engineType;
     Ok {| version := version; path := enginePath; fromEnvVar := None |}).
Proof.
  intros [Hnone | (v & Hsome & Hex)]; unfold getEngineInfo.
  - rewrite Hnone. reflexivity.
  - rewrite Hsome. simpl. rewrite Hex, andb_false_r. reflexivity.
Qed.

(** C1 (as amended).  For every engine kind: when the override variable
    that [engineEnvVarMap] gives for the kind is set, the path it names
    exists on disk and the version probe [getVersion] of that path
    succeeds, [getEngineInfo] returns the [EngineInfo] whose [path] is the
    variable's value, whose [version] is the probe's answer and whose
    [fromEnvVar] is the variable's name. *)
Theorem getEngineInfo_from_env (w : World) (env : gmap string string)
    (engineType : EngineType) (v ver : string) :
  env !! engineEnvVarMap w engineType = Some v ->
  existsSync w v = true ->
  getVersion w v engineType = Ok ver ->
  getEngineInfo w env engineType =
    Ok {| path := v; version := ver;
          fromEnvVar := Some (engineEnvVarMap w engineType) |}.
Proof.
  intros Henv Hex Hver.
  rewrite (getEngineInfo_override w env engineType v Henv Hex), Hver.
  reflexivity.
Qed.

Lemma getEngineInfo_from_env_witness :
  getEngineInfo (sampleWorld None libqueryEngine (sampleConfig []))
    (<["PRISMA_MIGRATION_ENGINE_BINARY" := "/opt/engines/migration-engine"]> ∅)
    migrationEngine =
  Ok {| path := "/opt/engines/migration-engine"; version := "3.15.0";
        fromEnvVar := Some "PRISMA_MIGRATION_ENGINE_BINARY" |}.
Proof.
  apply (getEngineInfo_from_env (sampleWorld None libqueryEngine (sampleConfig []))
           (<["PRISMA_MIGRATION_ENGINE_BINARY" := "/opt/engines/migration-engine"]> ∅)
           migrationEngine "/opt/engines/migration-engine" "3.15.0");
    vm_compute; reflexivity.
Defined.

(** C1, counterexample.  The override of the migration engine names
    [/opt/notes.txt], a file that exists and is no engine: the probe of
    that file fails, and [getEngineInfo] fails with it instead of
    returning an [EngineInfo]. *)
Lemma getEngineInfo_from_env_probe_fails :
  ~ (forall (w : World) (env : gmap string string) (engineType : EngineType) (v : string),
       env !! engineEnvVarMap w engineType = Some v ->
       existsSync w v = true ->
       exists info, getEngineInfo w env engineType = Ok info /\
                    path info = v /\
                    fromEnvVar info = Some (engineEnvVarMap w engineType)).
Proof.
  intros H.
  destruct (H (sampleWorld None libqueryEngine (sampleConfig []))
              (<["PRISMA_MIGRATION_ENGINE_BINARY" := "/opt/notes.txt"]> ∅)
              migrationEngine "/opt/notes.txt") as (info & Hinfo & _).
  - vm_compute. reflexivity.
  - vm_compute. reflexivity.
  - vm_compute in Hinfo. discriminate Hinfo.
Qed.

(** C2 (as amended).  For every engine kind: when the override variable is
    unset, or set to a path that does not exist on disk, and the default
    resolution [resolveEnginePath] and the version probe of the path it
    gives both succeed, [getEngineInfo] returns the [EngineInfo] whose
    [path] is the result of the default resolution and whose [fromEnvVar]
    is absent. *)
Theorem getEngineInfo_from_default (w : World) (env : gmap string string)
    (engineType : EngineType) (enginePath ver : string) :
  (env !! engineEnvVarMap w engineType = None \/
   exists v, env !! engineEnvVarMap w engineType = Some v /\ existsSync w v = false) ->
  resolveEnginePath w engineType = Ok enginePath ->
  getVersion w enginePath engineType = Ok ver ->
  getEngineInfo w env engineType =
    Ok {| path := enginePath; version := ver; fromEnvVar := None |}.
Proof.
  intros Henv Hres Hver.
  rewrite (getEngineInfo_default w env engineType Henv), Hres.
  simpl. rewrite Hver. reflexivity.
Qed.

Lemma getEngineInfo_from_default_witness :
  getEngineInfo (sampleWorld None libqueryEngine (sampleConfig []))
    (<["PRISMA_FMT_BINARY" := "/nowhere/prisma-fmt"]> ∅) prismaFmt =
  Ok {| path := "/app/engines/prisma-fmt"; version := "3.15.0"; fromEnvVar := None |}.
Proof.
  apply (getEngineInfo_from_default (sampleWorld None libqueryEngine (sampleConfig []))
           (<["PRISMA_FMT_BINARY" := "/nowhere/prisma-fmt"]> ∅) prismaFmt
           "/app/engines/prisma-fmt" "3.15.0").
  - right. exists "/nowhere/prisma-fmt". split; vm_compute; reflexivity.
  - reflexivity.
  - vm_compute. reflexivity.
Defined.

(** C2, counterexample.  No override is set and the default resolution
    gives a path at which no engine is installed: the probe of that path
    fails, and [getEngineInfo] fails with it instead of returning an
    [EngineInfo]. *)
Lemma getEngineInfo_from_default_resolution_fails :
  ~ (forall (w : World) (env : gmap string string) (engineType : EngineType),
       (env !! engineEnvVarMap w engineType = None \/
        exists v, env !! engineEnvVarMap w engineType = Some v /\
                  existsSync w v = false) ->
       exists info, getEngineInfo w env engineType = Ok info /\
                    resolveEnginePath w engineType = Ok (path info) /\
                    fromEnvVar info = None).
Proof.
  intros H.
  destruct (H (withResolveEnginePath (sampleWorld None libqueryEngine (sampleConfig []))
                 (fun _ => Ok "/app/engines/query-engine-debian-openssl-1.1.x"))
              ∅ queryEngine) as (info & Hinfo & _).
  - left. reflexivity.
  - vm_compute in Hinfo. discriminate Hinfo.
Qed.

(** ** getFeatureFlags *)

Lemma getFeatureFlags_total (w : World) (schemaPath : option string) :
  exists flags, getFeatureFlags w schemaPath = Ok flags.
Proof.
  unfold getFeatureFlags.
  destruct (truthy_opt schemaPath); simpl; [| eauto].
  destruct (getSchema w) as [datamodel | e]; simpl; [| eauto].
  destruct (getConfig w datamodel) as [config | e]; simpl; [| eauto].
  destruct (find hasPreviewFeatures (generators config)); simpl; eauto.
Qed.

Lemma getFeatureFlags_found (w : World) (schemaPath : option string)
    (datamodel : string) (config : ConfigMetaFormat) :
  truthy_opt schemaPath = true ->
  getSchema w = Ok datamodel ->
  getConfig w datamodel = Ok config ->
  getFeatureFlags w schemaPath =
    Ok (match find hasPreviewFeatures (generators config) with
        | Some g => previewFeatures g
        | None => []
        end).
Proof.
  intros Hsp Hschema Hconfig. unfold getFeatureFlags.
  rewrite Hsp. simpl. rewrite Hschema. simpl. rewrite Hconfig. simpl.
  destruct (find hasPreviewFeatures (generators config)); reflexivity.
Qed.

(** [find] stops at the first element that passes the test. *)
Lemma find_first {A} (f : A -> bool) (pre : list A) (x : A) (post : list A) :
  Forall (fun y => f y = false) pre -> f x = true ->
  find f (pre ++ x :: post) = Some x.
Proof.
  induction 1 as [| y pre Hy _ IH]; intros Hx; simpl.
  - rewrite Hx. reflexivity.
  - rewrite Hy. apply IH. exact Hx.
Qed.

(** C3.  [getFeatureFlags] never raises: it returns a list whatever the
    schema path and whatever the schema reader and the config parser do;
    for a null schema path the list is empty; and when reading the schema
    or extracting its config fails, the error is caught and the list is
    empty, as it is when no generator declares a preview feature. *)
Theorem getFeatureFlags_never_raises (w : World) (schemaPath : option string) :
  (exists flags, getFeatureFlags w schemaPath = Ok flags) /\
  getFeatureFlags w None = Ok [] /\
  (NoFlagsFound w schemaPath -> getFeatureFlags w schemaPath = Ok []).
Proof.
  split; [apply getFeatureFlags_total |]. split; [reflexivity |].
  intros [Hsp | e He | datamodel e Hdm He | datamodel config Hdm Hcfg Hnone];
    unfold getFeatureFlags.
  - rewrite Hsp. reflexivity.
  - destruct (truthy_opt schemaPath); [| reflexivity]. simpl. rewrite He. reflexivity.
  - destruct (truthy_opt schemaPath); [| reflexivity]. simpl.
    rewrite Hdm. simpl. rewrite He. reflexivity.
  - destruct (truthy_opt schemaPath); [| reflexivity]. simpl.
    rewrite Hdm. simpl. rewrite Hcfg. simpl. rewrite Hnone. reflexivity.
Qed.

Lemma getFeatureFlags_never_raises_witness :
  getFeatureFlags (sampleWorld None libqueryEngine (Throw "Schema parsing error"))
    (Some "/app/prisma/schema.prisma") = Ok [].
Proof.
  apply (getFeatureFlags_never_raises
           (sampleWorld None libqueryEngine (Throw "Schema parsing error"))
           (Some "/app/prisma/schema.prisma")).
  apply ConfigInvalid
    with (datamodel := "generator client { previewFeatures = [a, b] }")
         (e := "Schema parsing error"); reflexivity.
Defined.

(** ** parse *)

Lemma parse_report (w : World) (env : gmap string string) (argv : list string)
    (args : Args) (out : Output) :
  arg w argv = ArgOk args -> arg_help args = false ->
  parse w env argv = Ok out ->
  exists env' rows,
    loadEnvFile w env = Ok env' /\ versionInfoRows w env' = Ok rows /\
    out = Str (printTable rows (arg_json args)).
Proof.
  intros Harg Hhelp H. unfold parse in H. rewrite Harg, Hhelp in H.
  bind_inv H. injection H as <-. eauto.
Qed.

(** C7.  For every argument vector that the parser accepts with the help
    flag set ([--help], or its alias [-h]), [parse] returns the help text,
    whatever the other flags are; nothing of what a report shows takes
    part: the result is the same in every installation that has the same
    parser and the same text formatting. *)
Theorem parse_help_short_circuits (w : World) (env : gmap string string)
    (argv : list string) (args : Args) :
  arg w argv = ArgOk args -> arg_help args = true ->
  parse w env argv = Ok (Str (Version_help w)) /\
  forall (w' : World) (env' : gmap string string),
    arg w' argv = arg w argv -> format w' = format w ->
    chalk_bold w' = chalk_bold w -> chalk_dim w' = chalk_dim w ->
    parse w' env' argv = parse w env argv.
Proof.
  intros Harg Hhelp.
  assert (Hparse : forall w0 env0, arg w0 argv = ArgOk args ->
                     parse w0 env0 argv = Ok (Str (Version_help w0))).
  { intros w0 env0 H0. unfold parse. rewrite H0, Hhelp. reflexivity. }
  split; [apply Hparse, Harg |].
  intros w' env' Ha Hf Hb Hd.
  rewrite (Hparse w env Harg), (Hparse w' env'); [| rewrite Ha; exact Harg].
  unfold Version_help. rewrite Hf, Hb, Hd. reflexivity.
Qed.

Lemma parse_help_short_circuits_witness :
  parse (sampleWorld None queryEngine (sampleConfig ["a"])) ∅
    ["--json"; "--telemetry-information"; "ci"; "-h"] =
  Ok (Str (Version_help (sampleWorld None queryEngine (sampleConfig ["a"])))).
Proof.
  apply (parse_help_short_circuits (sampleWorld None queryEngine (sampleConfig ["a"])) ∅
           ["--json"; "--telemetry-information"; "ci"; "-h"]
           {| arg_help := true; arg_version := false; arg_json := true;
              arg_telemetry_information := Some "ci"; arg_rest := [] |});
    reflexivity.
Defined.

(** The steps of a successful run of the row-gathering part of [parse]. *)
Lemma versionInfoRows_inv (w : World) (env : gmap string string) (rows : list Row) :
  versionInfoRows w env = Ok rows ->
  exists prismaClientVersion platform queryEngine migration introspection fmt
         schemaPath featureFlags,
    getInstalledPrismaClientVersion w = Ok prismaClientVersion /\
    getPlatform w = Ok platform /\
    getEngineInfo w env (getCliQueryEngineType w) = Ok queryEngine /\
    getEngineInfo w env migrationEngine = Ok migration /\
    getEngineInfo w env introspectionEngine = Ok introspection /\
    getEngineInfo w env prismaFmt = Ok fmt /\
    getSchemaPath w = Ok schemaPath /\
    getFeatureFlags w schemaPath = Ok featureFlags /\
    rows =
      [ ("prisma", "0.0.0");
        ("@prisma/client", default "Not found" prismaClientVersion);
        ("Current platform", platform);
        (queryEngineLabel (getCliQueryEngineType w), constructEngineInfoString w queryEngine);
        ("Migration Engine", constructEngineInfoString w migration);
        ("Introspection Engine", constructEngineInfoString w introspection);
        ("Format Engine", constructEngineInfoString w fmt);
        ("Studio", "0.460.0");
        ("Default Engines Hash", "1c05d2fd02981d04d5367319e82f44e1c44ec0b7") ]
      ++ match featureFlags with
         | [] => []
         | _ :: _ => [("Preview Features", join ", " featureFlags)]
         end.
Proof.
  intros H. unfold versionInfoRows in H. bind_inv H.
  exists a, a0, a1, a2, a3, a4, a5, a6.
  repeat (split; [assumption |]).
  destruct a6 as [| flag flags]; simpl in H; injection H as <-; reflexivity.
Qed.

Lemma queryEngineLabel_cases (cliQueryEngineType : EngineType) :
  queryEngineLabel cliQueryEngineType =
    if decide (cliQueryEngineType = libqueryEngine)
    then "Query Engine (Node-API)" else "Query Engine (Binary)".
Proof. unfold queryEngineLabel. destruct (decide _); reflexivity. Qed.

Lemma constructEngineInfoString_form (w : World) (info : EngineInfo) :
  constructEngineInfoString w info =
    engineRowForm (version info) (path_relative w (cwd w) (path info))
      (if truthy_opt (fromEnvVar info) then fromEnvVar info else None).
Proof.
  unfold constructEngineInfoString, engineRowForm.
  destruct (fromEnvVar info) as [name |]; simpl; [| reflexivity].
  destruct (truthy name); reflexivity.
Qed.

Lemma producesReport_parse (w : World) (env : gmap string string) (argv : list string)
    (rows : list Row) :
  producesReport w env argv rows ->
  exists args, arg w argv = ArgOk args /\
               parse w env argv = Ok (Str (printTable rows (arg_json args))).
Proof.
  intros (args & env' & Harg & Hhelp & Henv & Hrows). exists args.
  split; [exact Harg |]. unfold parse.
  rewrite Harg, Hhelp, Henv. simpl. rewrite Hrows. reflexivity.
Qed.

Lemma parse_producesReport (w : World) (env : gmap string string) (argv : list string)
    (args : Args) (out : Output) :
  arg w argv = ArgOk args -> arg_help args = false ->
  parse w env argv = Ok out ->
  exists rows, producesReport w env argv rows /\
               out = Str (printTable rows (arg_json args)).
Proof.
  intros Harg Hhelp H.
  destruct (parse_report w env argv args out Harg Hhelp H) as (env' & rows & He & Hr & ->).
  exists rows. split; [| reflexivity]. exists args, env'. auto.
Qed.

Lemma Some_row_label (label value label' value' : string) :
  Some (label, value) = Some (label', value') -> label = label'.
Proof. congruence. Qed.

(** C8.  In every report that [parse] produces, the row at index 1 has the
    label [@prisma/client]; its value is the installed client version when
    one is found and the literal [Not found] when there is none; no other
    row has that label. *)
Theorem client_version_row (w : World) (env : gmap string string) (argv : list string)
    (rows : list Row) :
  producesReport w env argv rows ->
  exists found,
    getInstalledPrismaClientVersion w = Ok found /\
    rows !! 1%nat =
      Some ("@prisma/client",
            match found with Some v => v | None => "Not found" end) /\
    forall (i : nat) (value : string),
      rows !! i = Some ("@prisma/client", value) -> i = 1%nat.
Proof.
  intros (args & env' & _ & _ & _ & Hrows).
  destruct (versionInfoRows_inv w env' rows Hrows)
    as (cv & platform & qe & me & ie & fe & sp & flags & Hcv & _ & _ & _ & _ & _ & _ & _ & ->).
  exists cv. split; [exact Hcv |]. split.
  - destruct cv; reflexivity.
  - intros i value Hi.
    do 9 (destruct i as [| i]; [simpl in Hi; apply Some_row_label in Hi;
            try reflexivity; try discriminate Hi;
            rewrite queryEngineLabel_cases in Hi;
            destruct (decide (getCliQueryEngineType w = libqueryEngine));
            discriminate Hi |]).
    simpl in Hi. destruct flags as [| f fs]; [discriminate Hi |].
    destruct i; [| discriminate Hi]. apply Some_row_label in Hi. discriminate Hi.
Qed.

Lemma client_version_row_witness :
  exists found,
    getInstalledPrismaClientVersion (sampleWorld None libqueryEngine (sampleConfig [])) =
      Ok found /\
    sampleRows None libqueryEngine [] !! 1%nat =
      Some ("@prisma/client",
            match found with Some v => v | None => "Not found" end) /\
    forall (i : nat) (value : string),
      sampleRows None libqueryEngine [] !! i = Some ("@prisma/client", value) -> i = 1%nat.
Proof.
  apply (client_version_row (sampleWorld None libqueryEngine (sampleConfig [])) ∅
           ["--json"] (sampleRows None libqueryEngine [])).
  exists {| arg_help := false; arg_version := false; arg_json := true;
            arg_telemetry_information := None; arg_rest := [] |}, ∅.
  repeat split; vm_compute; reflexivity.
Defined.

Lemma hasPreviewFeatures_true (g : GeneratorConfig) :
  hasPreviewFeatures g = true <-> previewFeatures g <> [].
Proof.
  unfold hasPreviewFeatures. destruct (previewFeatures g); simpl; split;
    intros H; try reflexivity; try discriminate H; try (intros H'; discriminate H');
    exfalso; apply H; reflexivity.
Qed.

Lemma hasPreviewFeatures_false (g : GeneratorConfig) :
  hasPreviewFeatures g = false <-> previewFeatures g = [].
Proof.
  unfold hasPreviewFeatures. destruct (previewFeatures g); simpl; split;
    intros H; try reflexivity; try discriminate H; try (intros H'; discriminate H');
    exfalso; apply H; reflexivity.
Qed.

Lemma fixedLabels_no_preview (cliQueryEngineType : EngineType) :
  "Preview Features" ∉ fixedLabels (queryEngineLabel cliQueryEngineType).
Proof.
  unfold fixedLabels. rewrite queryEngineLabel_cases.
  rewrite !elem_of_cons, elem_of_nil.
  destruct (decide (cliQueryEngineType = libqueryEngine));
    intros H; repeat (destruct H as [H | H]; [discriminate H |]); exact H.
Qed.

(** C4.  In every report, a row labelled [Preview Features] follows the
    fixed rows if and only if the extracted list of feature flags is not
    empty, and its value is then the flags joined with a comma and a
    space ([a] and [b] give [a, b]); the flags are those of the first
    generator, in the order of the config, whose list of preview features
    is not empty. *)
Theorem preview_features_row (w : World) (env : gmap string string)
    (argv : list string) (rows : list Row) :
  producesReport w env argv rows ->
  exists schemaPath flags base,
    getSchemaPath w = Ok schemaPath /\
    getFeatureFlags w schemaPath = Ok flags /\
    map fst base = fixedLabels (queryEngineLabel (getCliQueryEngineType w)) /\
    rows = base ++ match flags with
                   | [] => []
                   | _ :: _ => [("Preview Features", join ", " flags)]
                   end /\
    ("Preview Features" ∈ map fst rows <-> flags <> []) /\
    join ", " ["a"; "b"] = "a, b" /\
    forall datamodel config pre g post,
      truthy_opt schemaPath = true ->
      getSchema w = Ok datamodel -> getConfig w datamodel = Ok config ->
      generators config = pre ++ g :: post ->
      Forall (fun g' => previewFeatures g' = []) pre ->
      previewFeatures g <> [] ->
      flags = previewFeatures g.
Proof.
  intros (args & env' & _ & _ & _ & Hrows).
  destruct (versionInfoRows_inv w env' rows Hrows)
    as (cv & platform & qe & me & ie & fe & sp & flags & _ & _ & _ & _ & _ & _ & Hsp & Hflags & ->).
  exists sp, flags. eexists.
  split; [exact Hsp |]. split; [exact Hflags |].
  refine (conj _ (conj eq_refl _)); [reflexivity |].
  split; [| split; [reflexivity |]].
  - rewrite map_app, elem_of_app. split.
    + intros [Hin | Hin].
      * exfalso. exact (fixedLabels_no_preview (getCliQueryEngineType w) Hin).
      * destruct flags; [inversion Hin | discriminate].
    + intros Hne. right. destruct flags; [congruence |]. simpl. left.
  - intros datamodel config pre g post Htruthy Hdm Hcfg Hgens Hpre Hg.
    rewrite (getFeatureFlags_found w sp datamodel config Htruthy Hdm Hcfg) in Hflags.
    rewrite Hgens, (find_first hasPreviewFeatures pre g post) in Hflags.
    + injection Hflags as <-. reflexivity.
    + eapply Forall_impl; [exact Hpre |]. intros g' Hg'.
      apply hasPreviewFeatures_false. exact Hg'.
    + apply hasPreviewFeatures_true. exact Hg.
Qed.

Lemma preview_features_row_witness :
  exists base,
    map fst base = fixedLabels "Query Engine (Binary)" /\
    sampleRows (Some "3.15.0") queryEngine ["a"; "b"] =
      base ++ [("Preview Features", "a, b")].
Proof.
  destruct (preview_features_row (sampleWorld (Some "3.15.0") queryEngine (sampleConfig ["a"; "b"]))
              ∅ [] (sampleRows (Some "3.15.0") queryEngine ["a"; "b"]))
    as (schemaPath & flags & base & Hsp & Hflags & Hbase & Hrows & _).
  - exists noArgs, ∅. repeat split; vm_compute; reflexivity.
  - exists base. split; [exact Hbase |].
    injection Hsp as <-. injection Hflags as <-. exact Hrows.
Defined.

(** C10.  In every report, the row of the query engine (index 3) is
    labelled [Query Engine (Node-API)] when the query-engine type of the
    CLI is the library engine and [Query Engine (Binary)] otherwise; every
    other label is the same whatever that type is; and the value of each
    of the four engine rows is the engine's version, then [(at], the
    engine's path relative to the working directory, then [, resolved by]
    and the variable's name when the path came from a variable, then the
    closing bracket. *)
Theorem engine_rows (w : World) (env : gmap string string)
    (argv : list string) (rows : list Row) :
  producesReport w env argv rows ->
  exists env' queryEngine migration introspection fmt tail,
    loadEnvFile w env = Ok env' /\
    getEngineInfo w env' (getCliQueryEngineType w) = Ok queryEngine /\
    getEngineInfo w env' migrationEngine = Ok migration /\
    getEngineInfo w env' introspectionEngine = Ok introspection /\
    getEngineInfo w env' prismaFmt = Ok fmt /\
    rows !! 3%nat =
      Some (if decide (getCliQueryEngineType w = libqueryEngine)
            then "Query Engine (Node-API)" else "Query Engine (Binary)",
            engineRowValue w queryEngine) /\
    rows !! 4%nat = Some ("Migration Engine", engineRowValue w migration) /\
    rows !! 5%nat = Some ("Introspection Engine", engineRowValue w introspection) /\
    rows !! 6%nat = Some ("Format Engine", engineRowValue w fmt) /\
    map fst rows =
      fixedLabels (if decide (getCliQueryEngineType w = libqueryEngine)
                   then "Query Engine (Node-API)" else "Query Engine (Binary)")
      ++ tail /\
    (tail = [] \/ tail = ["Preview Features"]).
Proof.
  intros (args & env' & _ & _ & Henv & Hrows).
  destruct (versionInfoRows_inv w env' rows Hrows)
    as (cv & platform & qe & me & ie & fe & sp & flags & _ & _ & Hqe & Hme & Hie & Hfe & _ & _ & ->).
  exists env', qe, me, ie, fe.
  exists (match flags with [] => [] | _ :: _ => ["Preview Features"] end).
  repeat (split; [assumption |]).
  unfold engineRowValue. rewrite <- !constructEngineInfoString_form.
  rewrite <- queryEngineLabel_cases.
  repeat (split; [reflexivity |]).
  split.
  - rewrite map_app. simpl. destruct flags; reflexivity.
  - destruct flags; auto.
Qed.

Lemma engine_rows_witness :
  sampleRows None libqueryEngine [] !! 3%nat =
    Some ("Query Engine (Node-API)", "3.15.0 (at engines/libquery_engine.so.node)") /\
  sampleRows None libqueryEngine [] !! 4%nat =
    Some ("Migration Engine", "3.15.0 (at engines/migration-engine)").
Proof.
  destruct (engine_rows (sampleWorld None libqueryEngine (sampleConfig [])) ∅ ["--json"]
              (sampleRows None libqueryEngine []))
    as (env' & qe & me & ie & fe & tail & Henv & Hqe & Hme & _ & _ & H3 & H4 & _).
  - exists {| arg_help := false; arg_version := false; arg_json := true;
              arg_telemetry_information := None; arg_rest := [] |}, ∅.
    repeat split; vm_compute; reflexivity.
  - injection Henv as <-.
    vm_compute in Hqe. injection Hqe as <-.
    vm_compute in Hme. injection Hme as <-.
    split; [exact H3 | exact H4].
Defined.

(** ** printTable: the text table *)

Section StringFacts.

Lemma append_cons (c : ascii) (s t : string) : String c s +:+ t = String c (s +:+ t).
Proof. reflexivity. Qed.

Lemma append_assoc (a b c : string) : (a +:+ b) +:+ c = a +:+ b +:+ c.
Proof.
  induction a as [| x a IH]; [reflexivity |].
  rewrite !append_cons, IH. reflexivity.
Qed.

Lemma length_append (a b : string) :
  String.length (a +:+ b) = String.length a + String.length b.
Proof.
  induction a as [| x a IH]; [reflexivity |].
  rewrite append_cons. simpl. rewrite IH. reflexivity.
Qed.

Lemma length_spaces (n : nat) : String.length (spaces n) = n.
Proof. induction n as [| n IH]; simpl; [reflexivity | rewrite IH; reflexivity]. Qed.

End StringFacts.

Section MaxPad.

Variable A : Type.
Variable size : A -> nat.

Let widest (l : list A) (start : nat) : nat :=
  fold_left (fun acc curr => Nat.max acc (size curr)) l start.

Lemma widest_cons (x : A) (l : list A) (start : nat) :
  widest (x :: l) start = widest l (Nat.max start (size x)).
Proof. reflexivity. Qed.

Lemma widest_ge_start (l : list A) (start : nat) : start <= widest l start.
Proof.
  revert start. induction l as [| x l IH]; intros start.
  - apply Nat.le_refl.
  - rewrite widest_cons. specialize (IH (Nat.max start (size x))). lia.
Qed.

Lemma widest_bounds (l : list A) (start : nat) :
  Forall (fun x => size x <= widest l start) l.
Proof.
  revert start. induction l as [| x l IH]; intros start; constructor.
  - rewrite widest_cons.
    pose proof (widest_ge_start l (Nat.max start (size x))) as H. lia.
  - rewrite widest_cons. apply IH.
Qed.

Lemma widest_attained (l : list A) (start : nat) :
  widest l start = start \/ Exists (fun x => size x = widest l start) l.
Proof.
  revert start. induction l as [| x l IH]; intros start; [left; reflexivity |].
  rewrite widest_cons.
  destruct (IH (Nat.max start (size x))) as [Heq | Hex].
  - rewrite Heq.
    destruct (Nat.max_spec start (size x)) as [[_ ->] | [_ ->]].
    + right. constructor. reflexivity.
    + left. reflexivity.
  - right. apply Exists_cons_tl. exact Hex.
Qed.

End MaxPad.

(** C6.  In text mode, for every non-empty list of rows with ASCII labels
    (whose length is their number of characters), the output is
    the lines joined by one line feed, where the line of a row is its
    label, then as many spaces as the label is shorter than the longest
    label of the list (so that the padded label has exactly that length),
    then [ : ] and the value; the rows [A, 1] and [BB, 22] give the lines
    [A  : 1] and [BB : 22]. *)
Theorem printTable_text (rows : list Row) :
  rows <> [] ->
  Forall (fun row => isAscii (fst row) = true) rows ->
  exists width : nat,
    Forall (fun row => String.length (fst row) <= width) rows /\
    Exists (fun row => String.length (fst row) = width) rows /\
    Forall (fun row =>
              String.length (fst row +:+ spaces (width - String.length (fst row))) = width)
           rows /\
    printTable rows false =
      join nl (map (fun row =>
                      (fst row +:+ spaces (width - String.length (fst row)))
                      +:+ " : " +:+ snd row) rows) /\
    printTable [("A", "1"); ("BB", "22")] false = "A  : 1" +:+ nl +:+ "BB : 22".
Proof.
  intros Hne _.
  assert (Hle : Forall (fun row : Row => String.length (fst row) <= maxPad rows) rows)
    by exact (widest_bounds Row (fun r => String.length (fst r)) rows 0).
  assert (Hmax : maxPad rows = 0 \/
                 Exists (fun row : Row => String.length (fst row) = maxPad rows) rows)
    by exact (widest_attained Row (fun r => String.length (fst r)) rows 0).
  assert (Hprint : printTable rows false =
            join nl (map (fun row => padEnd (fst row) (maxPad rows) +:+ " : " +:+ snd row)
                         rows)) by reflexivity.
  revert Hle Hmax Hprint. generalize (maxPad rows).
  intros width Hle Hmax Hprint. exists width.
  split; [exact Hle |]. split; [| split; [| split; [exact Hprint | reflexivity]]].
  - destruct Hmax as [H0 | Hex]; [| exact Hex].
    destruct rows as [| row rows']; [congruence |].
    constructor. inversion Hle as [| ? ? Hrow _]; subst. lia.
  - eapply Forall_impl; [exact Hle |]. intros row Hrow. simpl in Hrow.
    rewrite length_append, length_spaces. lia.
Qed.

Lemma printTable_text_witness :
  exists maxPad : nat,
    Forall (fun row => String.length (fst row) <= maxPad)
           [("Studio", "0.460.0"); ("Current platform", "darwin")] /\
    printTable [("Studio", "0.460.0"); ("Current platform", "darwin")] false =
      "Studio           : 0.460.0" +:+ nl +:+ "Current platform : darwin".
Proof.
  destruct (printTable_text [("Studio", "0.460.0"); ("Current platform", "darwin")])
    as (maxPad & Hle & _ & _ & _ & _).
  - discriminate.
  - repeat constructor.
  - exists maxPad. split; [exact Hle | reflexivity].
Defined.

(** ** slugify *)

Section Slugify.

Lemma isWhiteSpace_lowerChar (c : ascii) : isWhiteSpace (lowerChar c) = isWhiteSpace c.
Proof. destruct c as [[] [] [] [] [] [] [] []]; reflexivity. Qed.

Lemma isUpper_lowerChar (c : ascii) : isUpper (lowerChar c) = false.
Proof. destruct c as [[] [] [] [] [] [] [] []]; reflexivity. Qed.

Lemma toLowerCase_append (a b : string) :
  toLowerCase (a +:+ b) = toLowerCase a +:+ toLowerCase b.
Proof.
  induction a as [| c a IH]; [reflexivity |].
  rewrite append_cons. simpl. rewrite IH. reflexivity.
Qed.

Lemma noWhiteSpace_toLowerCase (s : string) :
  noWhiteSpace (toLowerCase s) = noWhiteSpace s.
Proof.
  induction s as [| c s IH]; [reflexivity |].
  simpl. rewrite isWhiteSpace_lowerChar, IH. reflexivity.
Qed.

Lemma allWhiteSpace_toLowerCase (s : string) :
  allWhiteSpace (toLowerCase s) = allWhiteSpace s.
Proof.
  induction s as [| c s IH]; [reflexivity |].
  simpl. rewrite isWhiteSpace_lowerChar, IH. reflexivity.
Qed.

Lemma startsWithWhiteSpace_toLowerCase (s : string) :
  startsWithWhiteSpace (toLowerCase s) = startsWithWhiteSpace s.
Proof. destruct s as [| c s]; [reflexivity |]. simpl. apply isWhiteSpace_lowerChar. Qed.

Lemma endsWithWhiteSpace_toLowerCase (s : string) :
  endsWithWhiteSpace (toLowerCase s) = endsWithWhiteSpace s.
Proof.
  induction s as [| c s IH]; [reflexivity |].
  destruct s as [| c' s]; simpl in *; [apply isWhiteSpace_lowerChar | exact IH].
Qed.

Lemma noUpper_toLowerCase (s : string) : noUpper (toLowerCase s) = true.
Proof.
  induction s as [| c s IH]; [reflexivity |].
  simpl. rewrite isUpper_lowerChar, IH. reflexivity.
Qed.

Lemma replaceWhiteSpace_append (inRun : bool) (a b : string) :
  replaceWhiteSpace inRun (a +:+ b) =
    replaceWhiteSpace inRun a +:+ replaceWhiteSpace (inRunAfter inRun a) b.
Proof.
  revert inRun. induction a as [| c a IH]; intros inRun; [reflexivity |].
  assert (Hnext : inRunAfter inRun (String c a) = inRunAfter (isWhiteSpace c) a)
    by (destruct a; reflexivity).
  rewrite Hnext, append_cons. simpl.
  destruct (isWhiteSpace c); [destruct inRun |]; rewrite IH; reflexivity.
Qed.

Lemma replaceWhiteSpace_run (ws : string) :
  allWhiteSpace ws = true ->
  replaceWhiteSpace true ws = "" /\
  (ws <> "" -> replaceWhiteSpace false ws = "-" /\ endsWithWhiteSpace ws = true).
Proof.
  induction ws as [| c ws IH]; intros Hall; [split; [reflexivity | congruence] |].
  simpl in Hall. apply andb_true_iff in Hall as [Hc Hall].
  destruct (IH Hall) as [Htrue Hfalse]. simpl. rewrite Hc. split; [exact Htrue |].
  intros _. rewrite Htrue. split; [reflexivity |].
  destruct ws as [| c' ws]; [reflexivity |]. apply Hfalse. discriminate.
Qed.

Lemma replaceWhiteSpace_fresh (b : string) :
  startsWithWhiteSpace b = false ->
  replaceWhiteSpace true b = replaceWhiteSpace false b.
Proof. destruct b as [| c b]; [reflexivity |]. simpl. intros ->. reflexivity. Qed.

Lemma replaceWhiteSpace_none (inRun : bool) (s : string) :
  noWhiteSpace s = true -> replaceWhiteSpace inRun s = s.
Proof.
  revert inRun. induction s as [| c s IH]; intros inRun H; [reflexivity |].
  simpl in H. apply andb_true_iff in H as [Hc Hs]. apply negb_true_iff in Hc.
  simpl. rewrite Hc, (IH false Hs). reflexivity.
Qed.

Lemma noWhiteSpace_replaceWhiteSpace (inRun : bool) (s : string) :
  noWhiteSpace (replaceWhiteSpace inRun s) = true.
Proof.
  revert inRun. induction s as [| c s IH]; intros inRun; [reflexivity |].
  simpl. destruct (isWhiteSpace c) eqn:Hc.
  - destruct inRun; [apply IH |]. simpl. apply IH.
  - simpl. rewrite Hc. apply IH.
Qed.

Lemma noUpper_replaceWhiteSpace (inRun : bool) (s : string) :
  noUpper s = true -> noUpper (replaceWhiteSpace inRun s) = true.
Proof.
  revert inRun. induction s as [| c s IH]; intros inRun H; [reflexivity |].
  simpl in H. apply andb_true_iff in H as [Hc Hs].
  simpl. destruct (isWhiteSpace c).
  - destruct inRun; [apply IH, Hs |]. simpl. apply IH, Hs.
  - simpl. rewrite Hc. apply IH, Hs.
Qed.

(** A label without white space is only lowercased. *)
Lemma slugify_plain (label : string) :
  noWhiteSpace label = true -> slugify label = toLowerCase label.
Proof.
  intros H. unfold slugify. apply replaceWhiteSpace_none.
  rewrite noWhiteSpace_toLowerCase. exact H.
Qed.

(** A maximal run of white space between [a] and [b] becomes one hyphen. *)
Lemma slugify_run (a ws b : string) :
  ws <> "" -> allWhiteSpace ws = true ->
  endsWithWhiteSpace a = false -> startsWithWhiteSpace b = false ->
  slugify (a +:+ ws +:+ b) = slugify a +:+ "-" +:+ slugify b.
Proof.
  intros Hne Hall Ha Hb. unfold slugify.
  rewrite !toLowerCase_append, replaceWhiteSpace_append.
  assert (Hafter : inRunAfter false (toLowerCase a) = false).
  { destruct a as [| c a]; [reflexivity |].
    change (endsWithWhiteSpace (toLowerCase (String c a)) = false).
    rewrite endsWithWhiteSpace_toLowerCase. exact Ha. }
  rewrite Hafter, replaceWhiteSpace_append.
  assert (Hws : toLowerCase ws <> "") by (destruct ws; [congruence | discriminate]).
  rewrite <- allWhiteSpace_toLowerCase in Hall.
  destruct (replaceWhiteSpace_run (toLowerCase ws) Hall) as [_ Hrun].
  destruct (Hrun Hws) as [-> Hends].
  assert (Hafter' : inRunAfter false (toLowerCase ws) = true).
  { destruct (toLowerCase ws); [congruence | exact Hends]. }
  rewrite Hafter', replaceWhiteSpace_fresh; [reflexivity |].
  rewrite startsWithWhiteSpace_toLowerCase. exact Hb.
Qed.

(** The scan of [replace] and the runs of the specification agree. *)
Lemma replaceWhiteSpace_runs (s : string) :
  replaceWhiteSpace false s = hyphenateRuns (maximalRuns s) /\
  replaceWhiteSpace true s = hyphenateRuns (afterRun (maximalRuns s)).
Proof.
  induction s as [| c s [IHf IHt]]; [split; reflexivity |].
  simpl. rewrite IHf, IHt. unfold consRun.
  destruct (isWhiteSpace c) eqn:Hc;
    destruct (maximalRuns s) as [| [[] run] rest]; simpl; split; reflexivity.
Qed.

Lemma slugify_refines_spec (label : string) : slugify label = slugifySpec label.
Proof. apply replaceWhiteSpace_runs. Qed.

Lemma concatRuns_maximalRuns (s : string) : concatRuns (maximalRuns s) = s.
Proof.
  induction s as [| c s IH]; [reflexivity |].
  simpl. unfold consRun.
  destruct (maximalRuns s) as [| [ws run] rest]; simpl in *; [rewrite <- IH; reflexivity |].
  destruct (Bool.eqb ws (isWhiteSpace c)); simpl; rewrite <- IH; reflexivity.
Qed.

Lemma maximalRuns_wellFormed (s : string) :
  forallb wellFormedRun (maximalRuns s) = true.
Proof.
  induction s as [| c s IH]; [reflexivity |].
  simpl. unfold consRun.
  destruct (maximalRuns s) as [| [ws run] rest]; simpl in *.
  - unfold wellFormedRun. simpl. destruct (isWhiteSpace c); reflexivity.
  - apply andb_true_iff in IH as [Hrun Hrest].
    destruct (Bool.eqb ws (isWhiteSpace c)) eqn:Hws; simpl.
    + apply Bool.eqb_prop in Hws. subst ws. rewrite Hrest, andb_true_r.
      unfold wellFormedRun in *. simpl in *.
      apply andb_true_iff in Hrun as [_ Hrun].
      destruct (isWhiteSpace c); simpl in *; exact Hrun.
    + rewrite Hrun, Hrest, !andb_true_r.
      unfold wellFormedRun. simpl. destruct (isWhiteSpace c); reflexivity.
Qed.

Lemma maximalRuns_alternating (s : string) : alternating (maximalRuns s) = true.
Proof.
  induction s as [| c s IH]; [reflexivity |].
  simpl. unfold consRun.
  destruct (maximalRuns s) as [| [ws run] rest]; [reflexivity |].
  destruct (Bool.eqb ws (isWhiteSpace c)) eqn:Hws.
  - exact IH.
  - change (negb (Bool.eqb (isWhiteSpace c) ws) && alternating ((ws, run) :: rest) = true).
    rewrite IH, andb_true_r.
    destruct (isWhiteSpace c), ws; simpl in *; congruence.
Qed.

End Slugify.

(** ** Objects *)

Section JsObjects.

Implicit Types (o acc : JsObject) (k v : string) (rows : list Row).

Lemma defineProperty_keys k v o (k' : string) :
  k' ∈ map fst (defineProperty k v o) <-> k' = k \/ k' ∈ map fst o.
Proof.
  induction o as [| [k0 v0] o IH]; simpl.
  - rewrite elem_of_cons, elem_of_nil. tauto.
  - destruct (String.eqb_spec k0 k) as [-> | Hne]; simpl.
    + rewrite !elem_of_cons. tauto.
    + rewrite !elem_of_cons, IH. tauto.
Qed.

Lemma defineProperty_NoDup k v o :
  NoDup (map fst o) -> NoDup (map fst (defineProperty k v o)).
Proof.
  induction o as [| [k0 v0] o IH]; simpl; intros Hnd.
  - apply NoDup_singleton.
  - apply NoDup_cons in Hnd as [Hnotin Hnd].
    destruct (String.eqb_spec k0 k) as [-> | Hne]; simpl.
    + apply NoDup_cons. split; assumption.
    + apply NoDup_cons. split; [| apply IH, Hnd].
      rewrite defineProperty_keys. intros [-> | Hin]; [congruence | auto].
Qed.

Lemma getOwnProperty_defineProperty k v o (k' : string) :
  getOwnProperty (defineProperty k v o) k' =
    if String.eqb k k' then Some v else getOwnProperty o k'.
Proof.
  unfold getOwnProperty. induction o as [| [k0 v0] o IH]; simpl.
  - destruct (String.eqb k k'); reflexivity.
  - destruct (String.eqb_spec k0 k) as [-> | Hne]; simpl.
    + destruct (String.eqb k k'); reflexivity.
    + destruct (String.eqb_spec k0 k') as [-> | Hne']; simpl.
      * destruct (String.eqb_spec k k'); [congruence | reflexivity].
      * exact IH.
Qed.

Lemma getOwnProperty_elem_of o k v :
  getOwnProperty o k = Some v -> (k, v) ∈ o.
Proof.
  unfold getOwnProperty. induction o as [| [k0 v0] o IH]; simpl; [discriminate |].
  destruct (String.eqb_spec k0 k) as [-> | Hne]; simpl.
  - intros [= ->]. left.
  - intros H. right. apply IH, H.
Qed.

Lemma elem_of_getOwnProperty o k v :
  NoDup (map fst o) -> (k, v) ∈ o -> getOwnProperty o k = Some v.
Proof.
  unfold getOwnProperty. induction o as [| [k0 v0] o IH]; simpl; intros Hnd Hin.
  - inversion Hin.
  - apply NoDup_cons in Hnd as [Hnotin Hnd].
    apply elem_of_cons in Hin as [[= <- <-] | Hin].
    + rewrite String.eqb_refl. reflexivity.
    + destruct (String.eqb_spec k0 k) as [-> | Hne]; simpl; [| apply IH; assumption].
      exfalso. apply Hnotin. apply list_elem_of_fmap. exists (k, v). auto.
Qed.

(** The object after the rows, from any accumulator. *)
Let build rows acc : JsObject :=
  fold_left (fun acc row => setProperty acc (slugify (fst row)) (snd row)) rows acc.

Lemma build_cons (row : Row) rows acc :
  build (row :: rows) acc = build rows (setProperty acc (slugify (fst row)) (snd row)).
Proof. reflexivity. Qed.

Lemma build_app rows1 rows2 acc :
  build (rows1 ++ rows2) acc = build rows2 (build rows1 acc).
Proof. apply fold_left_app. Qed.

Lemma setProperty_keys acc k v (k' : string) :
  k' ∈ map fst (setProperty acc k v) <->
  (k' = k /\ k <> "__proto__") \/ k' ∈ map fst acc.
Proof.
  unfold setProperty. destruct (String.eqb_spec k "__proto__") as [-> | Hne].
  - tauto.
  - rewrite defineProperty_keys. tauto.
Qed.

Lemma setProperty_NoDup acc k v :
  NoDup (map fst acc) -> NoDup (map fst (setProperty acc k v)).
Proof.
  unfold setProperty. destruct (String.eqb k "__proto__"); [tauto |].
  apply defineProperty_NoDup.
Qed.

Lemma build_keys rows acc (k : string) :
  k ∈ map fst (build rows acc) <->
  k ∈ map fst acc \/
  (k <> "__proto__" /\ exists row, row ∈ rows /\ k = slugify (fst row)).
Proof.
  revert acc. induction rows as [| row rows IH]; intros acc.
  - simpl. split; [auto |]. intros [H | (_ & row & Hin & _)]; [exact H | inversion Hin].
  - rewrite build_cons, IH, setProperty_keys. split.
    + intros [[[-> Hne] | Hin] | (Hne & row' & Hin & ->)].
      * right. split; [exact Hne |]. exists row. split; [left | reflexivity].
      * left. exact Hin.
      * right. split; [exact Hne |]. exists row'. split; [right; exact Hin | reflexivity].
    + intros [Hin | (Hne & row' & Hin & ->)].
      * left. right. exact Hin.
      * apply elem_of_cons in Hin as [-> | Hin].
        -- left. left. split; [reflexivity | exact Hne].
        -- right. split; [exact Hne |]. exists row'. auto.
Qed.

Lemma build_NoDup rows acc :
  NoDup (map fst acc) -> NoDup (map fst (build rows acc)).
Proof.
  revert acc. induction rows as [| row rows IH]; intros acc Hnd; [exact Hnd |].
  rewrite build_cons. apply IH, setProperty_NoDup, Hnd.
Qed.

Lemma build_other_keys rows acc (k : string) :
  Forall (fun row => slugify (fst row) <> k) rows ->
  getOwnProperty (build rows acc) k = getOwnProperty acc k.
Proof.
  revert acc. induction rows as [| row rows IH]; intros acc Hall; [reflexivity |].
  apply Forall_cons in Hall as [Hrow Hall].
  rewrite build_cons, (IH _ Hall). unfold setProperty.
  destruct (String.eqb (slugify (fst row)) "__proto__"); [reflexivity |].
  rewrite getOwnProperty_defineProperty.
  destruct (String.eqb_spec (slugify (fst row)) k); [congruence | reflexivity].
Qed.

Lemma build_last_wins rows1 (label value : string) rows2 acc :
  slugify label <> "__proto__" ->
  Forall (fun row => slugify (fst row) <> slugify label) rows2 ->
  getOwnProperty (build (rows1 ++ (label, value) :: rows2) acc) (slugify label) =
    Some value.
Proof.
  intros Hne Hall. rewrite build_app, build_cons, (build_other_keys _ _ _ Hall).
  simpl. unfold setProperty.
  destruct (String.eqb_spec (slugify label) "__proto__"); [congruence |].
  rewrite getOwnProperty_defineProperty, String.eqb_refl. reflexivity.
Qed.

Lemma rowsObject_keys rows (k : string) :
  k ∈ map fst (rowsObject rows) <->
  k <> "__proto__" /\ exists row, row ∈ rows /\ k = slugify (fst row).
Proof.
  change (rowsObject rows) with (build rows []). rewrite build_keys. simpl.
  split; [intros [H | H]; [inversion H | exact H] | auto].
Qed.

Lemma rowsObject_NoDup rows : NoDup (map fst (rowsObject rows)).
Proof. apply (build_NoDup rows []). apply NoDup_nil_2. Qed.

Lemma rowsObject_last_wins rows1 (label value : string) rows2 :
  slugify label <> "__proto__" ->
  Forall (fun row => slugify (fst row) <> slugify label) rows2 ->
  getOwnProperty (rowsObject (rows1 ++ (label, value) :: rows2)) (slugify label) =
    Some value.
Proof. apply build_last_wins. Qed.

End JsObjects.

(** ** The order of enumeration and [JSON.stringify] *)

Section Stringify.

Lemma insertByIndex_Permutation e l : insertByIndex e l ≡ₚ e :: l.
Proof.
  induction l as [| h t IH]; simpl; [reflexivity |].
  destruct (fst e <=? fst h)%N; [reflexivity |].
  rewrite IH. apply Permutation_swap.
Qed.

Lemma sortByIndex_Permutation l : sortByIndex l ≡ₚ l.
Proof.
  unfold sortByIndex. induction l as [| h t IH]; simpl; [reflexivity |].
  rewrite insertByIndex_Permutation, IH. reflexivity.
Qed.

(** Enumeration reorders the properties and loses none. *)
Lemma ownEntries_Permutation (o : JsObject) : ownEntries o ≡ₚ o.
Proof.
  unfold ownEntries. rewrite sortByIndex_Permutation.
  induction o as [| [k v] o IH]; [reflexivity |].
  rewrite filter_cons. cbn [omap list_omap fst].
  destruct (arrayIndex k) as [n |] eqn:Hk.
  - rewrite decide_False by discriminate. simpl. rewrite IH. reflexivity.
  - rewrite decide_True by reflexivity. simpl.
    rewrite <- Permutation_middle, IH. reflexivity.
Qed.

Lemma occurs_append (c : ascii) (a b : string) :
  occurs c (a +:+ b) = occurs c a || occurs c b.
Proof.
  induction a as [| x a IH]; [reflexivity |].
  rewrite append_cons. simpl. rewrite IH, orb_assoc. reflexivity.
Qed.

Lemma quoteChar_no_LF (c : ascii) : occurs LF (quoteChar c) = false.
Proof. destruct c as [[] [] [] [] [] [] [] []]; reflexivity. Qed.

(** A string literal of JSON holds no line feed: the line feeds of the
    string are written as escapes. *)
Lemma quoteJSONString_no_LF (s : string) : occurs LF (quoteJSONString s) = false.
Proof.
  unfold quoteJSONString. simpl. rewrite occurs_append. simpl.
  rewrite orb_false_r.
  induction s as [| c s IH]; [reflexivity |].
  simpl. rewrite occurs_append, quoteChar_no_LF, IH. reflexivity.
Qed.

Lemma join_cons2 (sep x y : string) (l : list string) :
  join sep (x :: y :: l) = x +:+ sep +:+ join sep (y :: l).
Proof. reflexivity. Qed.

(** An indentation put after every separator is an indentation put
    before every element. *)
Lemma join_indent (gap sep x : string) (l : list string) :
  gap +:+ join (sep +:+ gap) (x :: l) = join sep (map (String.append gap) (x :: l)).
Proof.
  revert x. induction l as [| y l IH]; intros x; [reflexivity |].
  rewrite join_cons2. simpl map. rewrite join_cons2.
  simpl map in IH. rewrite <- IH.
  rewrite !append_assoc. reflexivity.
Qed.

Lemma JSON_stringify_2 (o : JsObject) :
  JSON_stringify o 2 =
    match ownEntries o with
    | [] => "{}"
    | _ :: _ =>
        "{" +:+ nl +:+ join ("," +:+ nl) (map entryLine (ownEntries o)) +:+ nl +:+ "}"
    end.
Proof.
  unfold JSON_stringify. simpl spaces. change (truthy "  ") with true. cbv iota.
  destruct (ownEntries o) as [| kv entries]; [reflexivity |].
  cbv zeta. simpl map.
  rewrite <- (append_assoc "  " (join _ _)).
  rewrite <- (append_assoc "," nl "  ").
  rewrite join_indent. simpl map. rewrite map_map. reflexivity.
Qed.

Lemma entryLine_no_LF (kv : string * string) : occurs LF (entryLine kv) = false.
Proof.
  unfold entryLine. rewrite !occurs_append, !quoteJSONString_no_LF. reflexivity.
Qed.

End Stringify.

(** ** The ASCII domain *)

Lemma isAsciiChar_lowerChar (c : ascii) : isAsciiChar c = true -> isAsciiChar (lowerChar c) = true.
Proof.
  destruct c as [[] [] [] [] [] [] [] []]; vm_compute; intros H;
    try reflexivity; discriminate H.
Qed.

Lemma isAscii_toLowerCase (s : string) : isAscii s = true -> isAscii (toLowerCase s) = true.
Proof.
  induction s as [| c s IH]; [reflexivity |]. simpl.
  intros H. apply andb_true_iff in H as [Hc Hs].
  rewrite (isAsciiChar_lowerChar c Hc), (IH Hs). reflexivity.
Qed.

Lemma isAscii_replaceWhiteSpace (inRun : bool) (s : string) :
  isAscii s = true -> isAscii (replaceWhiteSpace inRun s) = true.
Proof.
  revert inRun. induction s as [| c s IH]; intros inRun H; [reflexivity |].
  simpl in H. apply andb_true_iff in H as [Hc Hs]. simpl.
  destruct (isWhiteSpace c).
  - destruct inRun; [apply IH, Hs |]. simpl. apply IH, Hs.
  - simpl. rewrite Hc. apply IH, Hs.
Qed.

(** The slug of an ASCII label is ASCII. *)
Lemma isAscii_slugify (label : string) : isAscii label = true -> isAscii (slugify label) = true.
Proof.
  intros H. unfold slugify. apply isAscii_replaceWhiteSpace, isAscii_toLowerCase, H.
Qed.

(** ** printTable: the JSON object *)

(** C5.  In JSON mode, for every list of rows with ASCII labels: every
    key of the object that is printed is the slug of the label of a row
    (and the slug of every row is a key, the name [__proto__] apart); the
    slug of an ASCII label is the label lowercased, with every maximal
    run of white space replaced by one hyphen ([slugifySpec], over the
    maximal runs of the lowercased label), so that it is ASCII, holds
    neither an uppercase letter nor white space and
    [Query Engine (Node-API)] gives [query-engine-(node-api)]; and the
    object is printed with an indentation of two spaces: an opening
    brace, one line per property made of two spaces, the key, a colon, a
    space and the value, the lines separated by a comma and a line feed,
    and a closing brace on its own line, or [{}] for the empty object. *)
Theorem printTable_json (rows : list Row) :
  Forall (fun row => isAscii (fst row) = true) rows ->
  printTable rows true = JSON_stringify (rowsObject rows) 2 /\
  (forall k : string,
     k ∈ map fst (rowsObject rows) <->
     k <> "__proto__" /\ exists row, row ∈ rows /\ k = slugify (fst row)) /\
  ownEntries (rowsObject rows) ≡ₚ rowsObject rows /\
  printTable rows true =
    match ownEntries (rowsObject rows) with
    | [] => "{}"
    | _ :: _ =>
        "{" +:+ nl +:+ join ("," +:+ nl) (map entryLine (ownEntries (rowsObject rows)))
        +:+ nl +:+ "}"
    end /\
  (forall kv, occurs LF (entryLine kv) = false) /\
  (forall label,
     isAscii label = true ->
     slugify label = slugifySpec label /\
     concatRuns (maximalRuns (toLowerCase label)) = toLowerCase label /\
     forallb wellFormedRun (maximalRuns (toLowerCase label)) = true /\
     alternating (maximalRuns (toLowerCase label)) = true /\
     isAscii (slugify label) = true /\
     noUpper (slugify label) = true /\ noWhiteSpace (slugify label) = true) /\
  (forall label,
     isAscii label = true -> noWhiteSpace label = true ->
     slugify label = toLowerCase label) /\
  (forall a ws b,
     isAscii a = true -> isAscii ws = true -> isAscii b = true ->
     ws <> "" -> allWhiteSpace ws = true ->
     endsWithWhiteSpace a = false -> startsWithWhiteSpace b = false ->
     slugify (a +:+ ws +:+ b) = slugify a +:+ "-" +:+ slugify b) /\
  slugify "Query Engine (Node-API)" = "query-engine-(node-api)".
Proof.
  intros _.
  split; [reflexivity |].
  split; [apply rowsObject_keys |].
  split; [apply ownEntries_Permutation |].
  split; [apply (JSON_stringify_2 (rowsObject rows)) |].
  split; [apply entryLine_no_LF |].
  split.
  { intros label Hlabel.
    split; [apply slugify_refines_spec |].
    split; [apply concatRuns_maximalRuns |].
    split; [apply maximalRuns_wellFormed |].
    split; [apply maximalRuns_alternating |].
    split; [apply isAscii_slugify, Hlabel |].
    unfold slugify. split.
    - apply noUpper_replaceWhiteSpace, noUpper_toLowerCase.
    - apply noWhiteSpace_replaceWhiteSpace. }
  split; [intros label _; apply slugify_plain |].
  split; [intros a ws b _ _ _; apply slugify_run | reflexivity].
Qed.

Lemma printTable_json_witness :
  slugify ("Default" +:+ "  " +:+ "Engines Hash") =
    slugify "Default" +:+ "-" +:+ slugify "Engines Hash" /\
  slugify "Studio" = toLowerCase "Studio".
Proof.
  pose proof (printTable_json [("Default  Engines Hash", "1c05d2fd")]
                ltac:(repeat constructor))
    as (_ & _ & _ & _ & _ & _ & Hplain & Hrun & _).
  split.
  - apply (Hrun "Default" "  " "Engines Hash");
      [reflexivity | reflexivity | reflexivity | discriminate | reflexivity ..].
  - apply (Hplain "Studio"); reflexivity.
Defined.

(** C9 (as amended).  In JSON mode, for rows with ASCII labels: when two
    rows have labels with the same slug, other than the name
    [__proto__], and no row after the second of them has that slug, the
    value that the printed object holds under that key is the value of
    the second row, and no other; the object then has fewer properties
    than the list has rows. *)
Theorem rowsObject_later_row_wins (before between after : list Row)
    (label1 value1 label2 value2 : string) :
  Forall (fun row => isAscii (fst row) = true)
         (before ++ (label1, value1) :: between ++ (label2, value2) :: after) ->
  slugify label1 = slugify label2 ->
  slugify label2 <> "__proto__" ->
  Forall (fun row => slugify (fst row) <> slugify label2) after ->
  getOwnProperty
    (rowsObject (before ++ (label1, value1) :: between ++ (label2, value2) :: after))
    (slugify label2) = Some value2 /\
  (forall v : string,
     (slugify label2, v) ∈
       ownEntries
         (rowsObject (before ++ (label1, value1) :: between ++ (label2, value2) :: after))
     <-> v = value2) /\
  length (ownEntries
            (rowsObject (before ++ (label1, value1) :: between ++ (label2, value2) :: after)))
  < length (before ++ (label1, value1) :: between ++ (label2, value2) :: after).
Proof.
  intros _ Hsame Hne Hafter.
  set (rows := before ++ (label1, value1) :: between ++ (label2, value2) :: after).
  assert (Hget : getOwnProperty (rowsObject rows) (slugify label2) = Some value2).
  { unfold rows.
    replace (before ++ (label1, value1) :: between ++ (label2, value2) :: after)
      with ((before ++ (label1, value1) :: between) ++ (label2, value2) :: after)
      by (rewrite <- app_assoc; reflexivity).
    apply rowsObject_last_wins; assumption. }
  split; [exact Hget |]. split.
  - intros v. rewrite (ownEntries_Permutation (rowsObject rows)). split.
    + intros Hin.
      apply (elem_of_getOwnProperty _ _ _ (rowsObject_NoDup rows)) in Hin.
      congruence.
    + intros ->. apply getOwnProperty_elem_of, Hget.
  - rewrite (ownEntries_Permutation (rowsObject rows)).
    rewrite <- (length_map fst (rowsObject rows)).
    apply Nat.le_lt_trans
      with (length (map (fun row : Row => slugify (fst row))
                        (before ++ between ++ (label2, value2) :: after))).
    + apply submseteq_length, NoDup_submseteq; [apply rowsObject_NoDup |].
      intros k Hk. apply rowsObject_keys in Hk as (_ & row & Hin & ->).
      apply list_elem_of_fmap. unfold rows in Hin.
      rewrite elem_of_app, elem_of_cons, elem_of_app, elem_of_cons in Hin.
      destruct Hin as [Hin | [-> | [Hin | [-> | Hin]]]].
      * exists row. split; [reflexivity |]. rewrite elem_of_app. auto.
      * exists (label2, value2). split; [exact Hsame |].
        rewrite !elem_of_app, elem_of_cons. auto.
      * exists row. split; [reflexivity |]. rewrite !elem_of_app. auto.
      * exists (label2, value2). split; [reflexivity |].
        rewrite !elem_of_app, elem_of_cons. auto.
      * exists row. split; [reflexivity |]. rewrite !elem_of_app, elem_of_cons. auto.
    + unfold rows. rewrite length_map, !length_app. simpl.
      rewrite !length_app. simpl. lia.
Qed.

Lemma rowsObject_later_row_wins_witness :
  getOwnProperty
    (rowsObject [("Studio", "0.460.0"); ("Format Engine", "3.15.0");
                 ("format  engine", "3.16.0"); ("Current platform", "darwin")])
    "format-engine" = Some "3.16.0".
Proof.
  apply (rowsObject_later_row_wins [("Studio", "0.460.0")] [] [("Current platform", "darwin")]
           "Format Engine" "3.15.0" "format  engine" "3.16.0").
  - repeat constructor.
  - reflexivity.
  - discriminate.
  - repeat constructor; discriminate.
Defined.

(** C9, counterexample.  The ASCII labels [__PROTO__] and [__proto__]
    have the same slug, [__proto__]; the object printed for these two
    rows is empty: the value of the second row is not in it. *)
Lemma rowsObject_proto_rows_vanish :
  ~ (forall (before between after : list Row) (label1 value1 label2 value2 : string),
       Forall (fun row => isAscii (fst row) = true)
              (before ++ (label1, value1) :: between ++ (label2, value2) :: after) ->
       slugify label1 = slugify label2 ->
       Forall (fun row => slugify (fst row) <> slugify label2) after ->
       (slugify label2, value2) ∈
         ownEntries
           (rowsObject (before ++ (label1, value1) :: between ++ (label2, value2) :: after))).
Proof.
  intros H.
  specialize (H [] [] [] "__PROTO__" "a" "__proto__" "b"
                ltac:(repeat constructor) eq_refl (Forall_nil_2 _)).
  vm_compute in H. inversion H.
Qed.


(** * Further properties of the command *)

(** ** Errors of parse *)

(** X1.  When the argument parser refuses the arguments, [parse] does not
    fail: it resolves to a [HelpError] whose message is a line feed, the
    red mark, the parser's message and the help text (to the plain help
    text when the parser's message is empty), and nothing is probed. *)
Theorem parse_argument_error (w : World) (env : gmap string string)
    (argv : list string) (message : string) :
  arg w argv = ArgError message ->
  parse w env argv =
    Ok (if truthy message
        then HelpError (nl +:+ chalk_bold_red w "!" +:+ " " +:+ message +:+ nl
                        +:+ Version_help w)
        else Str (Version_help w)) /\
  forall env', parse w env' argv = parse w env argv.
Proof.
  intros Harg. unfold parse. rewrite Harg. split; [| reflexivity].
  unfold help. simpl. destruct (truthy message); reflexivity.
Qed.

Lemma parse_argument_error_witness :
  parse (sampleWorld None queryEngine (sampleConfig [])) ∅ ["--jsno"] =
  Ok (HelpError (nl +:+ "! unknown or unexpected option: --jsno" +:+ nl
                 +:+ Version_help (sampleWorld None queryEngine (sampleConfig [])))).
Proof.
  apply (parse_argument_error (sampleWorld None queryEngine (sampleConfig [])) ∅
           ["--jsno"] "unknown or unexpected option: --jsno").
  reflexivity.
Defined.

Lemma failure_bind {A B} (c : Result A) (f : A -> Result B) :
  failure (c ≫= f) =
    match c with
    | Ok a => failure (f a)
    | Throw e => Some e
    end.
Proof. destruct c; reflexivity. Qed.

Lemma versionInfoRows_failure (w : World) (env : gmap string string) :
  failure (versionInfoRows w env) = firstFailure (reportSteps w env).
Proof.
  unfold versionInfoRows, reportSteps.
  destruct (getInstalledPrismaClientVersion w) as [cv | e]; [| reflexivity].
  destruct (getPlatform w) as [platform | e]; [| reflexivity].
  destruct (getEngineInfo w env (getCliQueryEngineType w)) as [qe | e]; [| reflexivity].
  destruct (getEngineInfo w env migrationEngine) as [me | e]; [| reflexivity].
  destruct (getEngineInfo w env introspectionEngine) as [ie | e]; [| reflexivity].
  destruct (getEngineInfo w env prismaFmt) as [fe | e]; [| reflexivity].
  destruct (getSchemaPath w) as [sp | e]; [| reflexivity].
  simpl. destruct (getFeatureFlags_total w sp) as [flags ->]. simpl.
  destruct (0 <? length flags)%nat; reflexivity.
Qed.

(** X2.  A report is all or nothing, and fails fast: when the arguments
    ask for a report, [parse] fails exactly when the environment file, the
    client version, the platform, one of the four engines or the schema
    path cannot be obtained, with the error of the first of these calls
    that fails, in the order of the source; reading and parsing the schema
    never makes it fail. *)
Theorem parse_fails_fast (w : World) (env : gmap string string)
    (argv : list string) (args : Args) :
  arg w argv = ArgOk args -> arg_help args = false ->
  failure (parse w env argv) =
    match loadEnvFile w env with
    | Ok env' => firstFailure (reportSteps w env')
    | Throw e => Some e
    end.
Proof.
  intros Harg Hhelp. unfold parse. rewrite Harg, Hhelp.
  destruct (loadEnvFile w env) as [env' | e]; [| reflexivity].
  simpl. rewrite failure_bind.
  pose proof (versionInfoRows_failure w env') as H.
  destruct (versionInfoRows w env') as [rows | e]; exact H.
Qed.

Lemma parse_fails_fast_witness :
  failure (parse (sampleWorld None queryEngine (Throw "Schema parsing error"))
             (<["PRISMA_FMT_BINARY" := "/opt/notes.txt"]> ∅) ["--json"]) =
  Some "spawn failed".
Proof.
  rewrite (parse_fails_fast (sampleWorld None queryEngine (Throw "Schema parsing error"))
             (<["PRISMA_FMT_BINARY" := "/opt/notes.txt"]> ∅) ["--json"]
             {| arg_help := false; arg_version := false; arg_json := true;
                arg_telemetry_information := None; arg_rest := [] |}
             eq_refl eq_refl).
  vm_compute. reflexivity.
Defined.

(** X3.  The output depends on the accepted arguments through the help
    flag and the JSON flag only: [--version], [--telemetry-information]
    and positional arguments change nothing. *)
Theorem parse_ignores_other_arguments (w : World) (env : gmap string string)
    (argv1 argv2 : list string) (args1 args2 : Args) :
  arg w argv1 = ArgOk args1 -> arg w argv2 = ArgOk args2 ->
  arg_help args1 = arg_help args2 -> arg_json args1 = arg_json args2 ->
  parse w env argv1 = parse w env argv2.
Proof.
  intros H1 H2 Hhelp Hjson. unfold parse. rewrite H1, H2, Hhelp, Hjson. reflexivity.
Qed.

Lemma parse_ignores_other_arguments_witness :
  parse (sampleWorld None queryEngine (sampleConfig [])) ∅
    ["--json"; "--telemetry-information"; "ci"; "-v"; "extra"] =
  parse (sampleWorld None queryEngine (sampleConfig [])) ∅ ["--json"].
Proof.
  apply (parse_ignores_other_arguments (sampleWorld None queryEngine (sampleConfig [])) ∅
           ["--json"; "--telemetry-information"; "ci"; "-v"; "extra"] ["--json"]
           {| arg_help := false; arg_version := true; arg_json := true;
              arg_telemetry_information := Some "ci"; arg_rest := ["extra"] |}
           {| arg_help := false; arg_version := false; arg_json := true;
              arg_telemetry_information := None; arg_rest := [] |});
    reflexivity.
Defined.

(** ** Engine overrides *)



(** X4.  An override is used as it is or the run fails: when the override
    variable names a path that exists and the version probe of that path
    fails, [getEngineInfo] fails with the probe's error; it does not fall
    back to the default resolution, even where that one would succeed. *)
Theorem getEngineInfo_no_fallback (w : World) (env : gmap string string)
    (engineType : EngineType) (v e : string) :
  env !! engineEnvVarMap w engineType = Some v ->
  existsSync w v = true ->
  getVersion w v engineType = Throw e ->
  getEngineInfo w env engineType = Throw e.
Proof.
  intros Henv Hex Hver.
  rewrite (getEngineInfo_override w env engineType v Henv Hex), Hver. reflexivity.
Qed.

Lemma getEngineInfo_no_fallback_witness :
  getEngineInfo (sampleWorld None libqueryEngine (sampleConfig []))
    (<["PRISMA_QUERY_ENGINE_LIBRARY" := "/opt/notes.txt"]> ∅) libqueryEngine =
  Throw "spawn failed".
Proof.
  apply (getEngineInfo_no_fallback (sampleWorld None libqueryEngine (sampleConfig []))
           (<["PRISMA_QUERY_ENGINE_LIBRARY" := "/opt/notes.txt"]> ∅) libqueryEngine
           "/opt/notes.txt" "spawn failed");
    vm_compute; reflexivity.
Defined.



(** ** Where feature flags come from *)

Lemma find_Some_first {A} (f : A -> bool) (l : list A) (x : A) :
  find f l = Some x ->
  exists pre post, l = pre ++ x :: post /\ Forall (fun y => f y = false) pre /\ f x = true.
Proof.
  induction l as [| y l IH]; simpl; [discriminate |].
  destruct (f y) eqn:Hy.
  - intros [= <-]. exists [], l. split; [reflexivity |]. split; [constructor | exact Hy].
  - intros H. destruct (IH H) as (pre & post & -> & Hpre & Hx).
    exists (y :: pre), post. split; [reflexivity |]. split; [| exact Hx].
    constructor; assumption.
Qed.

(** X7.  [getFeatureFlags] invents nothing and merges nothing: a list it
    returns is either empty, in one of the four cases in which no flag is
    found, or it is, whole and alone, the non-empty list of preview
    features of one generator of the parsed config, before which every
    generator has an empty list. *)
Theorem getFeatureFlags_provenance (w : World) (schemaPath : option string)
    (flags : list string) :
  getFeatureFlags w schemaPath = Ok flags ->
  (flags = [] /\ NoFlagsFound w schemaPath) \/
  (flags <> [] /\ truthy_opt schemaPath = true /\
   exists datamodel config pre g post,
     getSchema w = Ok datamodel /\ getConfig w datamodel = Ok config /\
     generators config = pre ++ g :: post /\
     Forall (fun g' => previewFeatures g' = []) pre /\
     previewFeatures g = flags).
Proof.
  unfold getFeatureFlags.
  destruct (truthy_opt schemaPath) eqn:Hsp; simpl;
    [| intros [= <-]; left; split; [reflexivity | apply NoSchemaPath, Hsp]].
  destruct (getSchema w) as [datamodel | e] eqn:Hdm; simpl;
    [| intros [= <-]; left; split; [reflexivity | apply (SchemaUnreadable _ _ e), Hdm]].
  destruct (getConfig w datamodel) as [config | e] eqn:Hcfg; simpl;
    [| intros [= <-]; left; split;
       [reflexivity | apply (ConfigInvalid _ _ datamodel e); assumption]].
  destruct (find hasPreviewFeatures (generators config)) as [g |] eqn:Hfind; simpl;
    intros [= <-].
  - right. destruct (find_Some_first _ _ _ Hfind) as (pre & post & Hgens & Hpre & Hg).
    apply hasPreviewFeatures_true in Hg.
    split; [exact Hg |]. split; [reflexivity |].
    exists datamodel, config, pre, g, post. repeat (split; [assumption || reflexivity |]).
    split; [| reflexivity].
    eapply Forall_impl; [exact Hpre |]. intros g'. apply hasPreviewFeatures_false.
  - left. split; [reflexivity |].
    apply (NoGeneratorWithFlags _ _ datamodel config); assumption.
Qed.

Lemma getFeatureFlags_provenance_witness :
  (["a"; "b"] = [] /\
   NoFlagsFound (sampleWorld None queryEngine (sampleConfig ["a"; "b"]))
     (Some "/app/prisma/schema.prisma")) \/
  (["a"; "b"] <> [] /\ truthy_opt (Some "/app/prisma/schema.prisma") = true /\
   exists datamodel config pre g post,
     getSchema (sampleWorld None queryEngine (sampleConfig ["a"; "b"])) = Ok datamodel /\
     getConfig (sampleWorld None queryEngine (sampleConfig ["a"; "b"])) datamodel = Ok config /\
     generators config = pre ++ g :: post /\
     Forall (fun g' => previewFeatures g' = []) pre /\
     previewFeatures g = ["a"; "b"]).
Proof.
  apply (getFeatureFlags_provenance (sampleWorld None queryEngine (sampleConfig ["a"; "b"]))
           (Some "/app/prisma/schema.prisma") ["a"; "b"]).
  reflexivity.
Defined.

(** ** More on slugify *)

Lemma toLowerCase_noUpper (s : string) : noUpper s = true -> toLowerCase s = s.
Proof.
  induction s as [| c s IH]; [reflexivity |]. simpl.
  intros H. apply andb_true_iff in H as [Hc Hs]. apply negb_true_iff in Hc.
  unfold lowerChar. rewrite Hc, (IH Hs). reflexivity.
Qed.

(** X8.  [slugify] is idempotent on ASCII labels: the slug of such a
    label is ASCII again, and its slug is itself, so that a key of the
    JSON output can be used as a label without change. *)
Theorem slugify_idempotent (label : string) :
  isAscii label = true ->
  isAscii (slugify label) = true /\ slugify (slugify label) = slugify label.
Proof.
  intros Hlabel. split; [apply isAscii_slugify, Hlabel |].
  unfold slugify at 1.
  rewrite toLowerCase_noUpper
    by (apply noUpper_replaceWhiteSpace, noUpper_toLowerCase).
  apply replaceWhiteSpace_none. apply noWhiteSpace_replaceWhiteSpace.
Qed.

Lemma slugify_idempotent_witness :
  isAscii (slugify "Query Engine (Node-API)") = true /\
  slugify (slugify "Query Engine (Node-API)") = slugify "Query Engine (Node-API)".
Proof.
  apply (slugify_idempotent "Query Engine (Node-API)"). reflexivity.
Defined.

Lemma replaceWhiteSpace_any_run (inRun : bool) (ws b : string) :
  ws <> "" -> allWhiteSpace ws = true ->
  replaceWhiteSpace inRun (ws +:+ b) =
    (if inRun then "" else "-") +:+ replaceWhiteSpace true b.
Proof.
  intros Hne Hall. rewrite replaceWhiteSpace_append.
  destruct (replaceWhiteSpace_run ws Hall) as [Htrue Hfalse].
  destruct (Hfalse Hne) as [Hfalse' Hends].
  assert (Hafter : inRunAfter inRun ws = true)
    by (destruct ws; [congruence | exact Hends]).
  rewrite Hafter. destruct inRun; [rewrite Htrue | rewrite Hfalse']; reflexivity.
Qed.

(** X9.  ASCII labels that differ in the case of their letters [A]-[Z],
    or in the length and the characters of a run of ASCII white space,
    have the same slug, and so the same key in the JSON output. *)
Theorem slugify_collisions (a ws1 ws2 b : string) :
  isAscii a = true -> isAscii ws1 = true -> isAscii ws2 = true -> isAscii b = true ->
  ws1 <> "" -> allWhiteSpace ws1 = true ->
  ws2 <> "" -> allWhiteSpace ws2 = true ->
  slugify (a +:+ ws1 +:+ b) = slugify (a +:+ ws2 +:+ b) /\
  slugify (toLowerCase a) = slugify a.
Proof.
  intros _ _ _ _ Hne1 Hall1 Hne2 Hall2. split.
  - unfold slugify. rewrite !toLowerCase_append.
    rewrite (replaceWhiteSpace_append false (toLowerCase a)
               (toLowerCase ws1 +:+ toLowerCase b)),
            (replaceWhiteSpace_append false (toLowerCase a)
               (toLowerCase ws2 +:+ toLowerCase b)).
    f_equal.
    rewrite (replaceWhiteSpace_any_run _ (toLowerCase ws1)),
            (replaceWhiteSpace_any_run _ (toLowerCase ws2));
      try reflexivity;
      try (rewrite allWhiteSpace_toLowerCase; assumption).
    + destruct ws2; [congruence | discriminate].
    + destruct ws1; [congruence | discriminate].
  - unfold slugify. rewrite (toLowerCase_noUpper (toLowerCase a)); [reflexivity |].
    apply noUpper_toLowerCase.
Qed.

Lemma slugify_collisions_witness :
  slugify ("Format" +:+ " " +:+ "Engine") = slugify ("Format" +:+ "   " +:+ "Engine") /\
  slugify (toLowerCase "Format") = slugify "Format".
Proof.
  apply (slugify_collisions "Format" " " "   " "Engine");
    (discriminate || reflexivity).
Defined.

(** ** The JSON object of rows with distinct labels *)

Section DistinctRows.

Implicit Types (o acc : JsObject) (rows : list Row).

Lemma defineProperty_fresh (k v : string) o :
  k ∉ map fst o -> defineProperty k v o = o ++ [(k, v)].
Proof.
  induction o as [| [k0 v0] o IH]; simpl; intros Hnotin; [reflexivity |].
  apply not_elem_of_cons in Hnotin as [Hne Hnotin].
  destruct (String.eqb_spec k0 k) as [-> | _]; [congruence |].
  rewrite (IH Hnotin). reflexivity.
Qed.

Lemma fold_setProperty_fresh rows acc :
  NoDup (map fst acc ++ map (fun row => slugify (fst row)) rows) ->
  Forall (fun row => slugify (fst row) <> "__proto__") rows ->
  fold_left (fun acc row => setProperty acc (slugify (fst row)) (snd row)) rows acc =
    acc ++ map rowEntry rows.
Proof.
  revert acc. induction rows as [| row rows IH]; intros acc Hnd Hproto; simpl.
  - rewrite app_nil_r. reflexivity.
  - apply Forall_cons in Hproto as [Hrow Hproto].
    assert (Hfresh : slugify (fst row) ∉ map fst acc).
    { apply NoDup_app in Hnd as (_ & Hdisj & _). intros Hin.
      apply (Hdisj _ Hin). left. }
    unfold setProperty at 2.
    destruct (String.eqb_spec (slugify (fst row)) "__proto__"); [congruence |].
    rewrite (defineProperty_fresh _ _ _ Hfresh), IH.
    + rewrite <- app_assoc. reflexivity.
    + rewrite map_app, <- app_assoc. exact Hnd.
    + exact Hproto.
Qed.

Lemma ownEntries_plain o :
  Forall (fun kv => arrayIndex (fst kv) = None) o -> ownEntries o = o.
Proof.
  intros Hall. unfold ownEntries.
  assert (Hnone : omap (fun kv => (fun n => (n, kv)) <$> arrayIndex (fst kv)) o = []).
  { induction Hall as [| kv o Hkv _ IH]; [reflexivity |].
    cbn [omap list_omap]. rewrite Hkv. exact IH. }
  rewrite Hnone. simpl.
  induction Hall as [| kv o Hkv _ IH]; [reflexivity |].
  rewrite filter_cons, decide_True by exact Hkv. f_equal. apply IH.
  clear -Hnone Hkv. cbn [omap list_omap] in Hnone. rewrite Hkv in Hnone. exact Hnone.
Qed.

Lemma rowsObject_of_distinct rows :
  NoDup (map (fun row => slugify (fst row)) rows) ->
  Forall (fun row => slugify (fst row) <> "__proto__") rows ->
  Forall (fun row => arrayIndex (slugify (fst row)) = None) rows ->
  rowsObject rows = map rowEntry rows /\ ownEntries (rowsObject rows) = map rowEntry rows.
Proof.
  intros Hnd Hproto Hindex.
  assert (Hobj : rowsObject rows = map rowEntry rows)
    by (apply (fold_setProperty_fresh rows []); assumption).
  split; [exact Hobj |]. rewrite Hobj. apply ownEntries_plain.
  apply Forall_fmap. exact Hindex.
Qed.

End DistinctRows.

(** X10.  For rows with ASCII labels: when the slugs of the labels are
    pairwise distinct and none is
    [__proto__] or an array index, the printed object has one property
    per row, in the order of the rows: the key is the slug of the label
    and the value is the row's value. *)
Theorem printTable_json_distinct (rows : list Row) :
  Forall (fun row => isAscii (fst row) = true) rows ->
  NoDup (map (fun row => slugify (fst row)) rows) ->
  Forall (fun row => slugify (fst row) <> "__proto__") rows ->
  Forall (fun row => arrayIndex (slugify (fst row)) = None) rows ->
  ownEntries (rowsObject rows) = map rowEntry rows /\
  printTable rows true =
    match rows with
    | [] => "{}"
    | _ :: _ =>
        "{" +:+ nl
        +:+ join ("," +:+ nl) (map (fun row => entryLine (rowEntry row)) rows)
        +:+ nl +:+ "}"
    end.
Proof.
  intros _ Hnd Hproto Hindex.
  destruct (rowsObject_of_distinct rows Hnd Hproto Hindex) as [_ Hown].
  split; [exact Hown |].
  change (printTable rows true) with (JSON_stringify (rowsObject rows) 2).
  rewrite JSON_stringify_2, Hown, map_map.
  destruct rows; reflexivity.
Qed.

Lemma printTable_json_distinct_witness :
  printTable [("Studio", "0.460.0"); ("Current platform", "darwin")] true =
    "{" +:+ nl
    +:+ join ("," +:+ nl)
          (map (fun row => entryLine (rowEntry row))
               [("Studio", "0.460.0"); ("Current platform", "darwin")])
    +:+ nl +:+ "}".
Proof.
  apply (printTable_json_distinct [("Studio", "0.460.0"); ("Current platform", "darwin")]).
  - repeat constructor.
  - apply (bool_decide_unpack _). vm_compute. exact I.
  - repeat constructor; discriminate.
  - repeat constructor.
Defined.

Lemma fixedLabels_slugs (cliQueryEngineType : EngineType) :
  map slugify (fixedLabels (queryEngineLabel cliQueryEngineType)) =
    fixedKeys (if decide (cliQueryEngineType = libqueryEngine)
               then "query-engine-(node-api)" else "query-engine-(binary)").
Proof.
  rewrite queryEngineLabel_cases.
  destruct (decide (cliQueryEngineType = libqueryEngine)); reflexivity.
Qed.

Lemma versionInfoRows_labels (w : World) (env : gmap string string) (rows : list Row) :
  versionInfoRows w env = Ok rows ->
  exists tail,
    map fst rows = fixedLabels (queryEngineLabel (getCliQueryEngineType w)) ++ tail /\
    (tail = [] \/ tail = ["Preview Features"]).
Proof.
  intros Hrows.
  destruct (versionInfoRows_inv w env rows Hrows)
    as (cv & platform & qe & me & ie & fe & sp & flags & _ & _ & _ & _ & _ & _ & _ & _ & ->).
  exists (match flags with [] => [] | _ :: _ => ["Preview Features"] end).
  split; [rewrite map_app; destruct flags; reflexivity | destruct flags; auto].
Qed.

(** X11.  The JSON form of every report that [parse] produces has one
    property per row, in the order of the rows, and its keys are fixed:
    [prisma], [@prisma/client], [current-platform], the key of the query
    engine ([query-engine-(node-api)] for the library engine,
    [query-engine-(binary)] otherwise), [migration-engine],
    [introspection-engine], [format-engine], [studio] and
    [default-engines-hash], then [preview-features] when the report has
    that row. *)
Theorem report_json_keys (w : World) (env : gmap string string)
    (argv : list string) (rows : list Row) :
  producesReport w env argv rows ->
  ownEntries (rowsObject rows) = map rowEntry rows /\
  exists tail,
    map fst (ownEntries (rowsObject rows)) =
      fixedKeys (if decide (getCliQueryEngineType w = libqueryEngine)
                 then "query-engine-(node-api)" else "query-engine-(binary)")
      ++ tail /\
    (tail = [] \/ tail = ["preview-features"]).
Proof.
  intros (args & env' & _ & _ & _ & Hrows).
  destruct (versionInfoRows_labels w env' rows Hrows) as (tail & Hlabels & Htail).
  assert (Hslugs : map (fun row : string * string => slugify (fst row)) rows =
                   fixedKeys (if decide (getCliQueryEngineType w = libqueryEngine)
                              then "query-engine-(node-api)" else "query-engine-(binary)")
                   ++ map slugify tail).
  { transitivity (map slugify (map fst rows)); [symmetry; apply map_map |].
    rewrite Hlabels, map_app, fixedLabels_slugs. reflexivity. }
  assert (Hown : ownEntries (rowsObject rows) = map rowEntry rows).
  { apply rowsObject_of_distinct; unfold Row in *.
    - rewrite Hslugs.
      destruct (decide (getCliQueryEngineType w = libqueryEngine));
        destruct Htail as [-> | ->]; apply (bool_decide_unpack _); vm_compute; exact I.
    - apply (List.Forall_map (fun row : string * string => slugify (fst row))
                             (fun k => k <> "__proto__")).
      rewrite Hslugs.
      destruct (decide (getCliQueryEngineType w = libqueryEngine));
        destruct Htail as [-> | ->]; repeat constructor; discriminate.
    - apply (List.Forall_map (fun row : string * string => slugify (fst row))
                             (fun k => arrayIndex k = None)).
      rewrite Hslugs.
      destruct (decide (getCliQueryEngineType w = libqueryEngine));
        destruct Htail as [-> | ->]; repeat constructor. }
  split; [exact Hown |].
  exists (map slugify tail). split.
  - rewrite Hown, map_map. exact Hslugs.
  - destruct Htail as [-> | ->]; auto.
Qed.

Lemma report_json_keys_witness :
  ownEntries (rowsObject (sampleRows None libqueryEngine ["a"])) =
    map rowEntry (sampleRows None libqueryEngine ["a"]).
Proof.
  apply (report_json_keys (sampleWorld None libqueryEngine (sampleConfig ["a"])) ∅
           ["--json"] (sampleRows None libqueryEngine ["a"])).
  exists {| arg_help := false; arg_version := false; arg_json := true;
            arg_telemetry_information := None; arg_rest := [] |}, ∅.
  repeat split; vm_compute; reflexivity.
Defined.

(** ** split, pop and join *)

Section SplitJoin.

Variable sep : ascii.

Lemma split_cons_form (s : string) : exists piece rest, split sep s = piece :: rest.
Proof.
  induction s as [| c s (piece & rest & IH)]; simpl; [eauto |].
  destruct (Ascii.eqb c sep); [eauto |]. rewrite IH. eauto.
Qed.

Lemma split_pieces (s : string) :
  Forall (fun piece => occurs sep piece = false) (split sep s).
Proof.
  induction s as [| c s IH]; simpl; [repeat constructor |].
  destruct (Ascii.eqb c sep) eqn:Hc; [constructor; [reflexivity | exact IH] |].
  destruct (split sep s) as [| piece rest]; [repeat constructor; simpl; rewrite Hc; reflexivity |].
  apply Forall_cons in IH as [Hpiece Hrest].
  constructor; [simpl; rewrite Hc, Hpiece; reflexivity | exact Hrest].
Qed.

Lemma join_split (s : string) : join (String sep "") (split sep s) = s.
Proof.
  induction s as [| c s IH]; [reflexivity |]. simpl.
  destruct (split_cons_form s) as (piece & rest & Hs). rewrite Hs in *.
  destruct (Ascii.eqb_spec c sep) as [-> | Hne].
  - rewrite join_cons2, IH. reflexivity.
  - destruct rest as [| piece' rest].
    + simpl in *. rewrite IH. reflexivity.
    + rewrite join_cons2 in *. rewrite append_cons, IH. reflexivity.
Qed.

Lemma join_snoc (glue : string) (init : list string) (x y : string) :
  join glue ((x :: init) ++ [y]) = join glue (x :: init) +:+ glue +:+ y.
Proof.
  revert x. induction init as [| z init IH]; intros x; [reflexivity |].
  change ((x :: z :: init) ++ [y]) with (x :: (z :: init) ++ [y]).
  simpl app. rewrite !join_cons2. simpl app in IH. rewrite IH, !append_assoc. reflexivity.
Qed.

End SplitJoin.

(** X12.  [s.split(sep)] followed by [pop()] gives the part of [s] after
    its last separator: it always has a result, the result holds no
    separator, and [s] is either that result (when [s] holds no
    separator) or some head, a separator and that result; joining the
    pieces with the separator gives [s] back.  This is how the row
    [Default Engines Hash] is read off the version of the engines. *)
Theorem split_pop_tail (sep : ascii) (s : string) :
  join (String sep "") (split sep s) = s /\
  exists tail,
    pop (split sep s) = Some tail /\
    occurs sep tail = false /\
    (s = tail \/ exists head, s = head +:+ String sep tail).
Proof.
  split; [apply join_split |].
  pose proof (join_split sep s) as Hjoin.
  pose proof (split_pieces sep s) as Hpieces.
  destruct (split_cons_form sep s) as (piece & rest & Hs). rewrite Hs in *.
  unfold pop.
  destruct (exists_last (l := piece :: rest) ltac:(discriminate)) as (init & tail & Hlast).
  rewrite Hlast in *. exists tail.
  split; [apply last_snoc |].
  split; [apply Forall_app in Hpieces as [_ Htail]; apply Forall_cons in Htail; tauto |].
  destruct init as [| x init]; simpl in Hjoin.
  - left. symmetry. exact Hjoin.
  - right. exists (join (String sep "") (x :: init)).
    rewrite <- Hjoin. apply (join_snoc (String sep "") init x tail).
Qed.

(** ** The lines of the output *)

Section Lines.

Variable c : ascii.

Lemma countChar_append (a b : string) :
  countChar c (a +:+ b) = countChar c a + countChar c b.
Proof.
  induction a as [| x a IH]; [reflexivity |].
  rewrite append_cons. cbn [countChar]. rewrite IH. apply Nat.add_assoc.
Qed.

Lemma countChar_occurs (s : string) : occurs c s = false -> countChar c s = 0.
Proof.
  induction s as [| x s IH]; [reflexivity |]. simpl.
  intros H. apply orb_false_iff in H as [-> Hs]. rewrite (IH Hs). reflexivity.
Qed.

Lemma countChar_join (glue : string) (l : list string) :
  countChar c (join glue l) =
    sum_list (map (countChar c) l) + (length l - 1) * countChar c glue.
Proof.
  destruct l as [| x l]; [reflexivity |].
  revert x. induction l as [| y l IH]; intros x.
  - change (join glue [x]) with x. simpl. unfold id. lia.
  - rewrite join_cons2, !countChar_append, IH.
    cbn [map sum_list length].
    replace (S (S (length l)) - 1) with (S (S (length l) - 1)) by lia.
    rewrite Nat.mul_succ_l. unfold id. lia.
Qed.

End Lines.

Lemma countChar_spaces (n : nat) : countChar LF (spaces n) = 0.
Proof. induction n as [| n IH]; [reflexivity | exact IH]. Qed.

Lemma sum_list_zero {A} (f : A -> nat) (l : list A) :
  Forall (fun x => f x = 0) l -> sum_list (map f l) = 0.
Proof.
  induction 1 as [| x l Hx _ IH]; [reflexivity |].
  cbn [map sum_list]. unfold id. rewrite Hx. exact IH.
Qed.

(** X13.  The text table has one line per row: when no label and no value
    holds a line feed, the output holds one line feed less than there are
    rows, so that the rows are separated and the last line is not
    ended; no row gives the empty output. *)
Theorem printTable_text_lines (rows : list Row) :
  Forall (fun row => countChar LF (fst row) = 0 /\ countChar LF (snd row) = 0) rows ->
  countChar LF (printTable rows false) = length rows - 1 /\
  printTable [] false = "".
Proof.
  intros Hcells. split; [| reflexivity].
  change (printTable rows false)
    with (join nl (map (fun row => padEnd (fst row) (maxPad rows) +:+ " : " +:+ snd row)
                       rows)).
  rewrite countChar_join, length_map, map_map.
  rewrite sum_list_zero; [change (countChar LF nl) with 1; unfold Row; lia |].
  eapply Forall_impl; [exact Hcells |]. intros row [Hl Hv].
  unfold padEnd. rewrite !countChar_append, countChar_spaces, Hl, Hv. reflexivity.
Qed.

Lemma printTable_text_lines_witness :
  countChar LF (printTable [("Studio", "0.460.0"); ("Current platform", "darwin")] false)
  = 1.
Proof.
  apply (printTable_text_lines [("Studio", "0.460.0"); ("Current platform", "darwin")]).
  repeat constructor.
Defined.

Lemma rowsObject_length (rows : list Row) : length (rowsObject rows) <= length rows.
Proof.
  rewrite <- (length_map fst (rowsObject rows)).
  rewrite <- (length_map (fun row : Row => slugify (fst row)) rows).
  apply submseteq_length, NoDup_submseteq; [apply rowsObject_NoDup |].
  intros k Hk. apply rowsObject_keys in Hk as (_ & row & Hin & ->).
  apply list_elem_of_fmap. exists row. auto.
Qed.

(** X14.  The JSON output has one line per property between the lines of
    the braces, whatever the labels and the values hold, since a line
    feed of a key or of a value is written as an escape: for an object
    with properties, the output holds as many line feeds as properties
    and one more; there are at most as many properties as rows, and no
    row gives [{}]. *)
Theorem printTable_json_lines (rows : list Row) :
  countChar LF (printTable rows true) =
    match ownEntries (rowsObject rows) with
    | [] => 0
    | _ :: _ => S (length (ownEntries (rowsObject rows)))
    end /\
  length (ownEntries (rowsObject rows)) <= length rows /\
  printTable [] true = "{}".
Proof.
  split; [| split; [| reflexivity]].
  - change (printTable rows true) with (JSON_stringify (rowsObject rows) 2).
    rewrite JSON_stringify_2.
    destruct (ownEntries (rowsObject rows)) as [| kv entries]; [reflexivity |].
    rewrite !countChar_append, countChar_join, length_map, map_map.
    rewrite sum_list_zero
      by (apply Forall_forall; intros x _; apply countChar_occurs, entryLine_no_LF).
    change (countChar LF nl) with 1. change (countChar LF "{") with 0.
    change (countChar LF "}") with 0. change (countChar LF ("," +:+ nl)) with 1.
    cbn [length]. lia.
  - rewrite (ownEntries_Permutation (rowsObject rows)). apply rowsObject_length.
Qed.

Lemma maxPad_labels (rows : list Row) :
  maxPad rows = fold_left Nat.max (map String.length (map fst rows)) 0.
Proof.
  unfold maxPad. generalize 0.
  induction rows as [| row rows IH]; intros start; [reflexivity | apply IH].
Qed.

(** X15.  In the text form of every report the labels are padded to the
    length of the label of the query engine, the longest one: 23
    characters for the library engine and 21 otherwise. *)
Theorem report_label_width (w : World) (env : gmap string string)
    (argv : list string) (rows : list Row) :
  producesReport w env argv rows ->
  maxPad rows = String.length (queryEngineLabel (getCliQueryEngineType w)) /\
  maxPad rows = if decide (getCliQueryEngineType w = libqueryEngine) then 23 else 21.
Proof.
  intros (args & env' & _ & _ & _ & Hrows).
  destruct (versionInfoRows_labels w env' rows Hrows) as (tail & Hlabels & Htail).
  rewrite maxPad_labels, Hlabels, queryEngineLabel_cases.
  destruct (decide (getCliQueryEngineType w = libqueryEngine));
    destruct Htail as [-> | ->]; split; reflexivity.
Qed.

Lemma report_label_width_witness :
  maxPad (sampleRows None queryEngine ["a"]) = 21.
Proof.
  apply (report_label_width (sampleWorld None queryEngine (sampleConfig ["a"])) ∅
           [] (sampleRows None queryEngine ["a"])).
  exists noArgs, ∅. repeat split; vm_compute; reflexivity.
Defined.

(** ** Reports and the schema *)

Lemma firstFailure_None_steps (w : World) (env : gmap string string) :
  firstFailure (reportSteps w env) = None ->
  exists rows, versionInfoRows w env = Ok rows.
Proof.
  intros Hsteps. rewrite <- versionInfoRows_failure in Hsteps.
  destruct (versionInfoRows w env) as [rows | e]; [eauto | discriminate Hsteps].
Qed.

(** X16.  A schema that cannot be read or parsed does not stop the
    report: when everything but the schema is obtained and no flag is
    found, for whichever of the four reasons, [parse] returns the report
    of the nine fixed rows, without a row of preview features. *)
Theorem parse_survives_schema_errors (w : World) (env env' : gmap string string)
    (argv : list string) (args : Args) (schemaPath : option string) :
  arg w argv = ArgOk args -> arg_help args = false ->
  loadEnvFile w env = Ok env' ->
  firstFailure (reportSteps w env') = None ->
  getSchemaPath w = Ok schemaPath ->
  NoFlagsFound w schemaPath ->
  exists rows,
    parse w env argv = Ok (Str (printTable rows (arg_json args))) /\
    map fst rows = fixedLabels (queryEngineLabel (getCliQueryEngineType w)).
Proof.
  intros Harg Hhelp Henv Hsteps Hsp Hnone.
  destruct (firstFailure_None_steps w env' Hsteps) as (rows & Hrows).
  exists rows. split.
  - unfold parse. rewrite Harg, Hhelp, Henv. simpl. rewrite Hrows. reflexivity.
  - destruct (versionInfoRows_inv w env' rows Hrows)
      as (cv & platform & qe & me & ie & fe & sp & flags
          & _ & _ & _ & _ & _ & _ & Hsp' & Hflags & ->).
    rewrite Hsp in Hsp'. injection Hsp' as <-.
    assert (Hempty : getFeatureFlags w schemaPath = Ok []).
    { destruct Hnone as [H | e He | datamodel e Hdm He | datamodel config Hdm Hcfg Hfind];
        unfold getFeatureFlags.
      - rewrite H. reflexivity.
      - destruct (truthy_opt schemaPath); [| reflexivity]. simpl. rewrite He. reflexivity.
      - destruct (truthy_opt schemaPath); [| reflexivity]. simpl.
        rewrite Hdm. simpl. rewrite He. reflexivity.
      - destruct (truthy_opt schemaPath); [| reflexivity]. simpl.
        rewrite Hdm. simpl. rewrite Hcfg. simpl. rewrite Hfind. reflexivity. }
    rewrite Hempty in Hflags. injection Hflags as <-. reflexivity.
Qed.

Lemma parse_survives_schema_errors_witness :
  exists rows,
    parse (sampleWorld None queryEngine (Throw "Schema parsing error")) ∅ ["--json"] =
      Ok (Str (printTable rows true)) /\
    map fst rows = fixedLabels "Query Engine (Binary)".
Proof.
  apply (parse_survives_schema_errors
           (sampleWorld None queryEngine (Throw "Schema parsing error")) ∅ ∅ ["--json"]
           {| arg_help := false; arg_version := false; arg_json := true;
              arg_telemetry_information := None; arg_rest := [] |}
           (Some "/app/prisma/schema.prisma"));
    try reflexivity.
  apply ConfigInvalid
    with (datamodel := "generator client { previewFeatures = [a, b] }")
         (e := "Schema parsing error"); reflexivity.
Defined.

(** X17.  The JSON flag changes the form of the report and not its
    content: two runs of [parse] in the same installation and
    environment, with accepted arguments that do not ask for help, print
    the same rows, each in the form its own flag asks for. *)
Theorem parse_same_rows (w : World) (env : gmap string string)
    (argv1 argv2 : list string) (args1 args2 : Args) (out1 : Output) :
  arg w argv1 = ArgOk args1 -> arg_help args1 = false ->
  arg w argv2 = ArgOk args2 -> arg_help args2 = false ->
  parse w env argv1 = Ok out1 ->
  exists rows,
    out1 = Str (printTable rows (arg_json args1)) /\
    parse w env argv2 = Ok (Str (printTable rows (arg_json args2))).
Proof.
  intros Harg1 Hhelp1 Harg2 Hhelp2 Hout.
  destruct (parse_report w env argv1 args1 out1 Harg1 Hhelp1 Hout)
    as (env' & rows & Henv & Hrows & ->).
  exists rows. split; [reflexivity |].
  unfold parse. rewrite Harg2, Hhelp2, Henv. simpl. rewrite Hrows. reflexivity.
Qed.

Lemma parse_same_rows_witness :
  exists rows,
    Str (printTable (sampleRows None queryEngine []) false) = Str (printTable rows false) /\
    parse (sampleWorld None queryEngine (sampleConfig [])) ∅ ["--json"] =
      Ok (Str (printTable rows true)).
Proof.
  apply (parse_same_rows (sampleWorld None queryEngine (sampleConfig [])) ∅ [] ["--json"]
           noArgs
           {| arg_help := false; arg_version := false; arg_json := true;
              arg_telemetry_information := None; arg_rest := [] |});
    reflexivity.
Defined.
